(** * Credit control: the chase decision engine

    A shallow embedding of [backend/src/services/chase-service.js]
    (class [ChaseService]) and of the invoice routes that call it
    ([computeNextChaseInfo] and the [expedite] handler), followed by the
    properties of the engine: eligibility gates, the commit step, the batch
    loop and the display accessor.

    The database is the model's state (tables [invoices], [chase_emails],
    [app_config]); the Stripe, OpenAI and Gmail services, the clock and the
    runtime's date parser are oracles collected in a record [env]. *)

From Stdlib Require Import ZArith List Bool Lia Ascii String.
From Stdlib Require Import PrimInt63 Floats.
From stdpp Require Import gmap strings.

Open Scope Z_scope.

(* ===================================================================== *)
(** ** JavaScript values used by the engine *)
(* ===================================================================== *)

Module JS.

(** A JavaScript number as the engine meets it outside the hour
    arithmetic: integer valued, or [NaN]. *)
Inductive number : Type :=
| NaN
| Int (z : Z).

Definition isNaN (n : number) : bool :=
  match n with NaN => true | Int _ => false end.

(** [x >= y]: false as soon as one side is [NaN]. *)
Definition geb (x y : number) : bool :=
  match x, y with
  | Int a, Int b => b <=? a
  | _, _ => false
  end.

(** [Math.max(x, y)]. *)
Definition max (x y : number) : number :=
  match x, y with
  | Int a, Int b => Int (Z.max a b)
  | _, _ => NaN
  end.

(** *** [parseInt(s, 10)] *)

(** White space skipped by [parseInt] (the ASCII part of it: TAB, LF, VT,
    FF, CR and SP). *)
Definition is_white (c : ascii) : bool :=
  let n := Z.of_nat (nat_of_ascii c) in
  (n =? 32) || ((9 <=? n) && (n <=? 13)).

Fixpoint skip_white (s : string) : string :=
  match s with
  | String c r => if is_white c then skip_white r else s
  | EmptyString => s
  end.

Definition digit_of (c : ascii) : option Z :=
  let n := Z.of_nat (nat_of_ascii c) in
  if (48 <=? n) && (n <=? 57) then Some (n - 48) else None.

(** The longest prefix of decimal digits, read as a numeral; [None] when
    the prefix is empty. *)
Fixpoint digits (s : string) (acc : option Z) : option Z :=
  match s with
  | String c r =>
      match digit_of c with
      | Some d => digits r (Some (10 * default 0 acc + d))
      | None => acc
      end
  | EmptyString => acc
  end.

Definition parseInt (s : string) : number :=
  let t := skip_white s in
  let '(neg, u) :=
    match t with
    | String "-"%char r => (true, r)
    | String "+"%char r => (false, r)
    | _ => (false, t)
    end in
  match digits u None with
  | None => NaN
  | Some n => Int (if neg then - n else n)
  end.

(** *** [String.prototype.split] with a one-character separator *)

Fixpoint split_aux (sep : ascii) (s : string) (cur : string) : list string :=
  match s with
  | EmptyString => [cur]
  | String c r =>
      if Ascii.eqb c sep then cur :: split_aux sep r EmptyString
      else split_aux sep r (cur ++ String c EmptyString)%string
  end.

Definition split (sep : ascii) (s : string) : list string :=
  split_aux sep s EmptyString.

(** *** Binary64 arithmetic

    The hour and day arithmetic of the engine is floating point; it is
    modelled with the kernel's binary64 numbers, which are JavaScript's. *)

Fixpoint int_of_pos (p : positive) : PrimInt63.int :=
  match p with
  | xH => 1%uint63
  | xO q => PrimInt63.lsl (int_of_pos q) 1%uint63
  | xI q => PrimInt63.lor (PrimInt63.lsl (int_of_pos q) 1%uint63) 1%uint63
  end.

(** The double nearest to an integer (for [|z| < 2^63], which covers the
    difference of any two time values). The difference of two doubles that
    hold integers is the double nearest to the exact difference, so
    [to_float (a - b)] is [a.getTime() - b.getTime()]. *)
Definition to_float (z : Z) : float :=
  match z with
  | Z0 => PrimFloat.zero
  | Zpos p => PrimFloat.of_uint63 (int_of_pos p)
  | Zneg p => PrimFloat.opp (PrimFloat.of_uint63 (int_of_pos p))
  end.

(** [Math.floor] of a finite double (the engine only floors a quotient of
    finite numbers). *)
Definition floor (f : float) : number :=
  match Prim2SF f with
  | S754_zero _ => Int 0
  | S754_finite s m e =>
      let n := if s then Zneg m else Zpos m in
      Int (if 0 <=? e then n * 2 ^ e else n / 2 ^ (- e))
  | _ => NaN
  end.

(** [Math.ceil] of a finite double. *)
Definition ceil (f : float) : number :=
  match floor (PrimFloat.opp f) with
  | Int z => Int (- z)
  | NaN => NaN
  end.

(** *** Dates *)

(** A [Date] object: its time value in milliseconds since the epoch, or
    an invalid date (time value [NaN]). *)
Inductive Date : Type :=
| InvalidDate
| DateAt (t : Z).

Definition TimeClip (t : Z) : Date :=
  if Z.abs t <=? 8640000000000000 then DateAt t else InvalidDate.

Definition msPerDay : Z := 24 * 60 * 60 * 1000.

Definition DayFromYear (y : Z) : Z :=
  365 * (y - 1970) + (y - 1969) / 4 - (y - 1901) / 100 + (y - 1601) / 400.

Definition InLeapYear (y : Z) : bool :=
  (y mod 4 =? 0) && (negb (y mod 100 =? 0) || (y mod 400 =? 0)).

(** Days from the start of the year to the start of month [mn] (0..11). *)
Definition DayWithinYear (y mn : Z) : Z :=
  let leap := if InLeapYear y then 1 else 0 in
  match mn with
  | 0 => 0
  | 1 => 31
  | 2 => 59 + leap
  | 3 => 90 + leap
  | 4 => 120 + leap
  | 5 => 151 + leap
  | 6 => 181 + leap
  | 7 => 212 + leap
  | 8 => 243 + leap
  | 9 => 273 + leap
  | 10 => 304 + leap
  | _ => 334 + leap
  end.

Definition MakeDay (year month date : Z) : Z :=
  let ym := year + month / 12 in
  let mn := month mod 12 in
  DayFromYear ym + DayWithinYear ym mn + date - 1.

(** [new Date(Date.UTC(year, month, date))] on integers. *)
Definition Date_UTC (year month date : Z) : Date :=
  let yr := if (0 <=? year) && (year <=? 99) then 1900 + year else year in
  TimeClip (MakeDay yr month date * msPerDay).

End JS.


(* ===================================================================== *)
(** ** Data model: the tables and the objects passed around *)
(* ===================================================================== *)

(** [invoice_status] and [email_status] of the schema. *)
Inductive invoice_status : Type := Paid | Unpaid | Overdue | Cancelled.

Inductive email_status : Type :=
  EmailPending | EmailApproved | EmailSent | EmailCancelled.

(** The value found in [invoice.chase_paused]: the column is a 0/1 integer
    or a boolean, and is absent from rows that were selected without it. *)
Inductive flag : Type :=
| FlagAbsent
| FlagNum (n : Z)
| FlagBool (b : bool).

(** A row of [invoices], which is also the [invoice] object the engine
    receives ([inv_id] is its [id]). Columns the engine never reads
    (currency, paid_date, created_at, updated_at, ...) are left out.
    [last_chase_date] is held as [new Date(invoice.last_chase_date)] reads
    it; [overdue_days] and [chase_count] are INTEGER columns, NULL or a
    number. *)
Record invoice : Type := {
  inv_id : Z;
  stripe_invoice_id : string;
  customer_email : string;
  customer_name : option string;
  amount : string;
  due_date : option string;
  status : invoice_status;
  overdue_days : option Z;
  last_chase_date : option JS.Date;
  chase_count : option Z;
  chase_paused : flag
}.

(** A row of [chase_emails] (its serial id and the columns left NULL by
    the engine are omitted). *)
Record chase_email : Type := {
  ce_invoice_id : Z;
  ce_overdue_day : option Z;
  ce_generated_text : string;
  ce_subject_line : string;
  ce_sent_at : option Z;
  ce_status : email_status;
  ce_sent_to : string
}.

(** What the content generator returns. *)
Record email_content : Type := {
  subject : string;
  body : string
}.

(** The arguments of [aiEmailService.generateChaseEmail]. *)
Record email_request : Type := {
  req_stripe_invoice_id : string;
  req_customer_email : string;
  req_customer_name : option string;
  req_amount : string;
  req_due_date : option string;
  req_overdue_days : JS.number;
  req_payment_link : string
}.

(** The arguments of [gmailService.sendChaseEmail]. *)
Record mail : Type := {
  mail_stripe_invoice_id : string;
  mail_customer_email : string;
  mail_customer_name : option string;
  mail_content : email_content;
  mail_paymentLink : option string
}.

(** Calls made to the outside services, in the order they were made. *)
Inductive call : Type :=
| StripeGetPaymentLink (sid : string)
| OpenAIGenerate (req : email_request)
| GmailSend (m : mail).

(** The database and the log of outside calls. A table is the list of its
    rows. *)
Record state : Type := {
  invoices : list invoice;
  chase_emails : list chase_email;
  app_config : list (string * option string);
  calls : list call
}.

(** The outside world of one run: the clock ([nowProvider] and the
    database's CURRENT_TIMESTAMP), the runtime's [new Date(string)], the
    database's verdict on [due_date < CURRENT_DATE], and the three
    services ([None] and [false]: the call throws). *)
Record env : Type := {
  now : Z;
  Date_parse : string -> JS.Date;
  due_before_today : option string -> bool;
  getPaymentLink : string -> option string;
  generateChaseEmail : email_request -> option email_content;
  sendChaseEmail : mail -> bool
}.

Inductive error : Type :=
| OpenAIError
| GmailError
| RangeError.

(** The [options] argument of [maybeSendChase]; a missing key reads as
    false. *)
Record options : Type := {
  bypassPaused : bool;
  bypassInterval : bool
}.

Definition no_options : options :=
  {| bypassPaused := false; bypassInterval := false |}.

(* ===================================================================== *)
(** ** Async functions: state passing with exceptions *)
(* ===================================================================== *)

Inductive result (A : Type) : Type :=
| Returned (a : A)
| Threw (e : error).

Arguments Returned {A} a.
Arguments Threw {A} e.

Definition M (A : Type) : Type := state -> result A * state.

#[export] Instance M_ret : MRet M := fun A a s => (Returned a, s).

#[export] Instance M_bind : MBind M := fun A B k m s =>
  match m s with
  | (Returned a, s') => k a s'
  | (Threw e, s') => (Threw e, s')
  end.

Definition throw {A : Type} (e : error) : M A := fun s => (Threw e, s).

Definition add_calls (cs : list call) (s : state) : state :=
  {| invoices := invoices s; chase_emails := chase_emails s;
     app_config := app_config s; calls := calls s ++ cs |}.

Definition log_call (c : call) : M unit := fun s =>
  (Returned tt, add_calls [c] s).

(** The value of [configMap.get(key) || dflt]. *)
Definition get_or (configMap : gmap string (option string))
    (key dflt : string) : string :=
  match configMap !! key with
  | Some (Some v) => if String.eqb v "" then dflt else v
  | _ => dflt
  end.

(* ===================================================================== *)
(** ** chase-service.js *)
(* ===================================================================== *)

Module ChaseService.

(** [getAppConfigMap]: one [map.set(row.key, row.value)] per row, so that
    a later row wins. *)
Definition getAppConfigMap (s : state) : gmap string (option string) :=
  fold_left (fun map row => <[fst row := snd row]> map) (app_config s) ∅.

Definition getIntervalHoursForOverdueDays (daysOverdue : JS.number) : option Z :=
  if JS.geb daysOverdue (JS.Int 10) then Some 24
  else if JS.geb daysOverdue (JS.Int 7) then Some 48
  else if JS.geb daysOverdue (JS.Int 5) then Some 72
  else None.

(** [parseDateOnly]: [None] is [null]; a date built by [Date.UTC] is
    returned even when it is invalid. *)
Definition parseDateOnly (e : env) (dateStr : option string) : option JS.Date :=
  match dateStr with
  | None => None
  | Some str =>
      if String.eqb str "" then None
      else
        let parts := map JS.parseInt (JS.split "-" str) in
        match nth 0 parts JS.NaN, nth 1 parts JS.NaN, nth 2 parts JS.NaN with
        | JS.Int y, JS.Int m, JS.Int d => Some (JS.Date_UTC y (m - 1) d)
        | _, _, _ =>
            match Date_parse e str with
            | JS.InvalidDate => None
            | JS.DateAt t => Some (JS.DateAt t)
            end
        end
  end.

(** [diffHours(a, b)] on two valid dates. *)
Definition diffHours (a b : Z) : float :=
  PrimFloat.div (JS.to_float (Z.abs (a - b))) (JS.to_float (1000 * 60 * 60)).

(** The rows the batch works on. [chase_paused] is not among the selected
    columns, so the objects returned do not carry it. *)
Definition selectCandidateInvoices (e : env) (s : state) : list invoice :=
  map (fun r =>
         {| inv_id := inv_id r;
            stripe_invoice_id := stripe_invoice_id r;
            customer_email := customer_email r;
            customer_name := customer_name r;
            amount := amount r;
            due_date := due_date r;
            status := status r;
            overdue_days := overdue_days r;
            last_chase_date := last_chase_date r;
            chase_count := chase_count r;
            chase_paused := FlagAbsent |})
      (List.filter (fun r =>
                 match status r with
                 | Unpaid | Overdue => due_before_today e (due_date r)
                 | _ => false
                 end)
              (invoices s)).

Definition computeDaysOverdue (e : env) (invoice : invoice) : JS.number :=
  let now := now e in
  let from_due_date :=
    match parseDateOnly e (due_date invoice) with
    | None => JS.Int 0
    | Some due =>
        let days :=
          match due with
          | JS.InvalidDate => JS.NaN
          | JS.DateAt t =>
              JS.floor (PrimFloat.div (JS.to_float (now - t))
                                      (JS.to_float JS.msPerDay))
          end in
        JS.max (JS.Int 0) days
    end in
  match overdue_days invoice with
  | Some n => if 0 <=? n then JS.Int n else from_due_date
  | None => from_due_date
  end.

(** A number bound to an integer column. *)
Definition to_sql (n : JS.number) : option Z :=
  match n with JS.Int z => Some z | JS.NaN => None end.

(** The row of the INSERT of the commit:
    VALUES ($1, NULL, $2, $3, $4, CURRENT_TIMESTAMP, 'sent', $5). *)
Definition sent_row (e : env) (invoice : invoice)
    (daysOverdue : JS.number) (emailContent : email_content) : chase_email :=
  {| ce_invoice_id := inv_id invoice;
     ce_overdue_day := to_sql daysOverdue;
     ce_generated_text := body emailContent;
     ce_subject_line := subject emailContent;
     ce_sent_at := Some (now e);
     ce_status := EmailSent;
     ce_sent_to := customer_email invoice |}.

(** INSERT INTO chase_emails ... *)
Definition insert_chase_email (row : chase_email) : M unit :=
  fun s =>
    (Returned tt,
     {| invoices := invoices s;
        chase_emails := chase_emails s ++ [row];
        app_config := app_config s;
        calls := calls s |}).

(** The row an invoice becomes under the UPDATE of the commit. *)
Definition chased_row (e : env) (daysOverdue : JS.number) (r : invoice) : invoice :=
  {| inv_id := inv_id r;
     stripe_invoice_id := stripe_invoice_id r;
     customer_email := customer_email r;
     customer_name := customer_name r;
     amount := amount r;
     due_date := due_date r;
     status := Overdue;
     overdue_days := to_sql daysOverdue;
     last_chase_date := Some (JS.DateAt (now e));
     chase_count := Some (default 0 (chase_count r) + 1);
     chase_paused := chase_paused r |}.

(** UPDATE invoices SET ... WHERE id = $2 *)
Definition update_rows (e : env) (daysOverdue : JS.number) (id : Z)
    (rows : list invoice) : list invoice :=
  map (fun r => if inv_id r =? id then chased_row e daysOverdue r else r) rows.

Definition update_invoice (e : env) (daysOverdue : JS.number) (id : Z) : M unit :=
  fun s =>
    (Returned tt,
     {| invoices := update_rows e daysOverdue id (invoices s);
        chase_emails := chase_emails s;
        app_config := app_config s;
        calls := calls s |}).

(** [!paymentLink] *)
Definition no_link (paymentLink : option string) : bool :=
  match paymentLink with
  | None => true
  | Some l => String.eqb l ""
  end.

(** [invoice.chase_paused === 1 || invoice.chase_paused === true] *)
Definition is_paused (f : flag) : bool :=
  match f with
  | FlagNum n => n =? 1
  | FlagBool b => b
  | FlagAbsent => false
  end.

(** [parseInt(invoice.chase_count || 0, 10)]: the decimal rendering of an
    integer column reads back as the integer. *)
Definition currentCount (invoice : invoice) : JS.number :=
  JS.Int (default 0 (chase_count invoice)).

Definition maxChaseCount (configMap : gmap string (option string)) : JS.number :=
  JS.parseInt (get_or configMap "max_chase_count" "4").

(** The gates of [maybeSendChase], each the condition of one of its
    [if]s. *)

Definition chaseEnabled (configMap : gmap string (option string)) : bool :=
  negb (String.eqb (get_or configMap "chase_enabled" "true") "false").

(** [!options.bypassPaused && (invoice.chase_paused === 1 || ... === true)] *)
Definition paused_gate (invoice : invoice) (options : options) : bool :=
  negb (bypassPaused options) && is_paused (chase_paused invoice).

(** [!isNaN(maxChaseCount) && currentCount >= maxChaseCount] *)
Definition cap_gate (invoice : invoice)
    (configMap : gmap string (option string)) : bool :=
  negb (JS.isNaN (maxChaseCount configMap))
  && JS.geb (currentCount invoice) (maxChaseCount configMap).

(** [hoursSince < requiredIntervalHours - 0.01]; the literal is the double
    that JavaScript reads for 0.01. *)
Definition interval_not_elapsed (now last requiredIntervalHours : Z) : bool :=
  PrimFloat.ltb (diffHours now last)
                (PrimFloat.sub (JS.to_float requiredIntervalHours)
                               0x1.47ae147ae147bp-7%float).

(** The interval test with its guards: not bypassed, a last chase date
    that is present and valid, and too few hours since. *)
Definition interval_gate (e : env) (invoice : invoice) (options : options)
    (requiredIntervalHours : Z) : bool :=
  negb (bypassInterval options)
  && match last_chase_date invoice with
     | Some (JS.DateAt last) =>
         interval_not_elapsed (now e) last requiredIntervalHours
     | _ => false
     end.

(** The object handed to the content generator. *)
Definition chase_request (invoice : invoice) (daysOverdue : JS.number)
    (paymentLink : option string) : email_request :=
  {| req_stripe_invoice_id := stripe_invoice_id invoice;
     req_customer_email := customer_email invoice;
     req_customer_name := customer_name invoice;
     req_amount := amount invoice;
     req_due_date := due_date invoice;
     req_overdue_days := daysOverdue;
     req_payment_link :=
       if no_link paymentLink then "{payment_link}"
       else default "" paymentLink |}.

(** The arguments of the delivery. *)
Definition chase_mail (invoice : invoice) (emailContent : email_content)
    (paymentLink : option string) : mail :=
  {| mail_stripe_invoice_id := stripe_invoice_id invoice;
     mail_customer_email := customer_email invoice;
     mail_customer_name := customer_name invoice;
     mail_content := emailContent;
     mail_paymentLink := paymentLink |}.

Definition maybeSendChase (e : env) (invoice : invoice)
    (configMap : gmap string (option string))
    (paymentLink : option string) (options : options) : M bool :=
  let daysOverdue := computeDaysOverdue e invoice in
  match getIntervalHoursForOverdueDays daysOverdue with
  | None => mret false
  | Some requiredIntervalHours =>
      if negb (chaseEnabled configMap) then mret false
      else if paused_gate invoice options then mret false
      else if cap_gate invoice configMap then mret false
      else if interval_gate e invoice options requiredIntervalHours
      then mret false
      else
        paymentLink ←
          (if no_link paymentLink then
             log_call (StripeGetPaymentLink (stripe_invoice_id invoice));;
             match getPaymentLink e (stripe_invoice_id invoice) with
             | Some l => mret (Some l)
             | None => mret paymentLink
             end
           else mret paymentLink);
        log_call (OpenAIGenerate (chase_request invoice daysOverdue paymentLink));;
        emailContent ←
          match generateChaseEmail e
                  (chase_request invoice daysOverdue paymentLink) with
          | Some c => mret c
          | None => throw OpenAIError
          end;
        log_call (GmailSend (chase_mail invoice emailContent paymentLink));;
        (if sendChaseEmail e (chase_mail invoice emailContent paymentLink)
         then mret tt else throw GmailError);;
        insert_chase_email (sent_row e invoice daysOverdue emailContent);;
        update_invoice e daysOverdue (inv_id invoice);;
        mret true
  end.

(** The answer of [processOverdueChasing]. *)
Record batch_result : Type := {
  sent : Z;
  totalCandidates : Z
}.

(** The [for] loop of [processOverdueChasing], with its [try]/[catch]. *)
Fixpoint chase_loop (e : env) (configMap : gmap string (option string))
    (invoices : list invoice) (sentCount : Z) (s : state) : Z * state :=
  match invoices with
  | [] => (sentCount, s)
  | invoice :: rest =>
      match maybeSendChase e invoice configMap None no_options s with
      | (Returned sent, s') =>
          chase_loop e configMap rest
                     (if sent then sentCount + 1 else sentCount) s'
      | (Threw _, s') => chase_loop e configMap rest sentCount s'
      end
  end.

Definition processOverdueChasing (e : env) : M batch_result :=
  fun s =>
    let configMap := getAppConfigMap s in
    let invoices := selectCandidateInvoices e s in
    let '(sentCount, s') := chase_loop e configMap invoices 0 s in
    (Returned {| sent := sentCount;
                 totalCandidates := Z.of_nat (length invoices) |}, s').

End ChaseService.

(* ===================================================================== *)
(** ** The invoice routes: next-chase display and expedite *)
(* ===================================================================== *)

Module InvoiceRoutes.

Record next_chase_info : Type := {
  next_chase_date : option Z;
  days_until_next_chase : option JS.number
}.

(** [Number.isFinite(invoice.overdue_days) ? invoice.overdue_days : 0] *)
Definition shown_daysOverdue (invoice : invoice) : Z :=
  default 0 (overdue_days invoice).

(** The local [hoursInterval] of [computeNextChaseInfo]. *)
Definition hoursInterval (daysOverdue : Z) : option Z :=
  if 10 <=? daysOverdue then Some 24
  else if 7 <=? daysOverdue then Some 48
  else if 5 <=? daysOverdue then Some 72
  else None.

(** [computeNextChaseInfo]. [next_chase_date] is the time value of the
    ISO string returned; [toISOString] throws on an invalid date. *)
Definition computeNextChaseInfo (e : env) (invoice : invoice)
    : result next_chase_info :=
  let now := now e in
  let last := last_chase_date invoice in
  let daysOverdue := shown_daysOverdue invoice in
  match hoursInterval daysOverdue with
  | None =>
      Returned {| next_chase_date := None; days_until_next_chase := None |}
  | Some hoursInterval =>
      let nextDate :=
        match last with
        | Some (JS.DateAt t) => JS.TimeClip (t + hoursInterval * 60 * 60 * 1000)
        | Some JS.InvalidDate => JS.InvalidDate
        | None => JS.DateAt now
        end in
      match nextDate with
      | JS.InvalidDate => Threw RangeError
      | JS.DateAt next =>
          let daysUntil :=
            JS.max (JS.Int 0)
                   (JS.ceil (PrimFloat.div (JS.to_float (next - now))
                                           (JS.to_float (24 * 60 * 60 * 1000)))) in
          Returned {| next_chase_date := Some next;
                      days_until_next_chase := Some daysUntil |}
      end
  end.

(** The answers of the expedite handler. *)
Inductive response : Type :=
| Ok200 (sent : bool)
| NotFound404
| InternalError500.

(** POST /api/invoices/:id/expedite *)
Definition expedite (e : env) (id : Z) (s : state) : response * state :=
  match List.filter (fun r => inv_id r =? id) (invoices s) with
  | [] => (NotFound404, s)
  | invoice :: _ =>
      let configMap :=
        fold_left (fun map r => <[fst r := snd r]> map) (app_config s) ∅ in
      match ChaseService.maybeSendChase e invoice configMap None
              {| bypassPaused := true; bypassInterval := true |} s with
      | (Returned sent, s') => (Ok200 sent, s')
      | (Threw _, s') => (InternalError500, s')
      end
  end.

(** The row an invoice becomes under the UPDATE of the pause handler,
    which binds [paused ? 1 : 0] to [chase_paused]. *)
Definition paused_row (paused : bool) (r : invoice) : invoice :=
  {| inv_id := inv_id r;
     stripe_invoice_id := stripe_invoice_id r;
     customer_email := customer_email r;
     customer_name := customer_name r;
     amount := amount r;
     due_date := due_date r;
     status := status r;
     overdue_days := overdue_days r;
     last_chase_date := last_chase_date r;
     chase_count := chase_count r;
     chase_paused := FlagNum (if paused then 1 else 0) |}.

(** POST /api/invoices/:id/pause. The handler runs
    UPDATE invoices SET chase_paused = $1 WHERE id = $2 and answers success
    with the flag it was given, whether or not a row has that id. *)
Definition pause (id : Z) (paused : bool) (s : state) : bool * state :=
  (paused,
   {| invoices :=
        map (fun r => if inv_id r =? id then paused_row paused r else r)
            (invoices s);
      chase_emails := chase_emails s;
      app_config := app_config s;
      calls := calls s |}).

End InvoiceRoutes.

(* ===================================================================== *)
(** ** gmail-service.js: where a chase is delivered *)
(* ===================================================================== *)

Module GmailService.

(** The environment variables [sendChaseEmail] reads; [None] is an unset
    variable. *)
Record process_env : Type := {
  NODE_ENV : option string;
  EMAIL_TEST_MODE : option string;
  TEST_EMAIL_RECIPIENT : option string
}.

(** [process.env.X || dflt] *)
Definition env_or (v : option string) (dflt : string) : string :=
  match v with
  | Some x => if String.eqb x "" then dflt else x
  | None => dflt
  end.

(** [process.env.NODE_ENV === 'production'] *)
Definition isProd (p : process_env) : bool :=
  match NODE_ENV p with
  | Some x => String.eqb x "production"
  | None => false
  end.

(** The local [emailTestMode] of [sendChaseEmail]. *)
Definition emailTestMode (p : process_env) : bool :=
  negb (String.eqb
          (env_or (EMAIL_TEST_MODE p) (if negb (isProd p) then "true" else "false"))
          "false").

(** The local [adminFallback]. *)
Definition adminFallback (p : process_env) : string :=
  env_or (TEST_EMAIL_RECIPIENT p) "david@rawlings.us".

(** The local [recipientEmail]: the address the chase is sent to. *)
Definition recipientEmail (p : process_env) (m : mail) : string :=
  if emailTestMode p && negb (String.eqb (adminFallback p) "")
  then adminFallback p
  else mail_customer_email m.

End GmailService.

(* ===================================================================== *)
(** ** ai-email-service.js: the tone of a chase *)
(* ===================================================================== *)

Module AiEmailService.

(** [x <= y] on numbers: false as soon as one side is [NaN]. *)
Definition leb (x y : JS.number) : bool :=
  match x, y with
  | JS.Int a, JS.Int b => a <=? b
  | _, _ => false
  end.

Definition selectTone (overdueDays : JS.number) : string :=
  if leb overdueDays (JS.Int 1) then "warm and friendly reminder"
  else if leb overdueDays (JS.Int 3) then "polite and clear follow-up"
  else if leb overdueDays (JS.Int 7) then "firm but courteous"
  else "firm and concise, still courteous".

(** [invoice.overdue_days || 0] *)
Definition or_zero (n : JS.number) : JS.number :=
  match n with
  | JS.NaN => JS.Int 0
  | JS.Int z => JS.Int z
  end.

(** The local [tone] of [buildPrompt] for a request that carries no
    [options.tone], as the engine's requests do. *)
Definition promptTone (req : email_request) : string :=
  selectTone (or_zero (req_overdue_days req)).

End AiEmailService.

(* ===================================================================== *)
(** ** stripe-service.js: payment notices and the invoice sync *)
(* ===================================================================== *)

Module StripeService.

(** The row an invoice becomes under
    UPDATE invoices SET status = $1, paid_date = $2, updated_at = $3
    (the two dates are columns the model leaves out). *)
Definition status_row (st : invoice_status) (r : invoice) : invoice :=
  {| inv_id := inv_id r;
     stripe_invoice_id := stripe_invoice_id r;
     customer_email := customer_email r;
     customer_name := customer_name r;
     amount := amount r;
     due_date := due_date r;
     status := st;
     overdue_days := overdue_days r;
     last_chase_date := last_chase_date r;
     chase_count := chase_count r;
     chase_paused := chase_paused r |}.

(** [updateInvoiceStatus]: ... WHERE stripe_invoice_id = $4 *)
Definition updateInvoiceStatus (stripeInvoiceId : string) (st : invoice_status)
    (s : state) : state :=
  {| invoices :=
       map (fun r => if String.eqb (stripe_invoice_id r) stripeInvoiceId
                     then status_row st r else r)
           (invoices s);
     chase_emails := chase_emails s;
     app_config := app_config s;
     calls := calls s |}.

(** The scalar subquery SELECT id FROM invoices WHERE stripe_invoice_id = $1
    ([None]: no row, the subquery is NULL; the column is UNIQUE). *)
Definition invoice_id_of (stripeInvoiceId : string) (s : state) : option Z :=
  match List.filter (fun r => String.eqb (stripe_invoice_id r) stripeInvoiceId)
                    (invoices s) with
  | r :: _ => Some (inv_id r)
  | [] => None
  end.

Definition cancelled_email (r : chase_email) : chase_email :=
  {| ce_invoice_id := ce_invoice_id r;
     ce_overdue_day := ce_overdue_day r;
     ce_generated_text := ce_generated_text r;
     ce_subject_line := ce_subject_line r;
     ce_sent_at := ce_sent_at r;
     ce_status := EmailCancelled;
     ce_sent_to := ce_sent_to r |}.

(** UPDATE chase_emails SET status = 'cancelled'
    WHERE invoice_id = (SELECT id ...) AND status = 'pending' *)
Definition cancel_pending (stripeInvoiceId : string) (s : state) : state :=
  {| invoices := invoices s;
     chase_emails :=
       match invoice_id_of stripeInvoiceId s with
       | None => chase_emails s
       | Some id =>
           map (fun r =>
                  if (ce_invoice_id r =? id)
                     && match ce_status r with
                        | EmailPending => true
                        | _ => false
                        end
                  then cancelled_email r else r)
               (chase_emails s)
       end;
     app_config := app_config s;
     calls := calls s |}.

(** [handlePaymentSucceeded] on the Stripe invoice with the given id. *)
Definition handlePaymentSucceeded (stripeInvoiceId : string) (s : state) : state :=
  cancel_pending stripeInvoiceId (updateInvoiceStatus stripeInvoiceId Paid s).

(** [handlePaymentFailed] *)
Definition handlePaymentFailed (stripeInvoiceId : string) (s : state) : state :=
  updateInvoiceStatus stripeInvoiceId Unpaid s.

End StripeService.

Import ChaseService InvoiceRoutes.
Import GmailService AiEmailService StripeService.

(* ===================================================================== *)
(** ** Vocabulary of the specification *)
(* ===================================================================== *)

(** Every gate of [maybeSendChase] is passed. *)
Definition eligible (e : env) (invoice : invoice)
    (configMap : gmap string (option string)) (options : options) : bool :=
  match getIntervalHoursForOverdueDays (computeDaysOverdue e invoice) with
  | None => false
  | Some requiredIntervalHours =>
      chaseEnabled configMap
      && negb (paused_gate invoice options)
      && negb (cap_gate invoice configMap)
      && negb (interval_gate e invoice options requiredIntervalHours)
  end.

(** The payment link in hand once Stripe has been asked (or not). *)
Definition fetched_link (e : env) (invoice : invoice)
    (paymentLink : option string) : option string :=
  if no_link paymentLink then
    match getPaymentLink e (stripe_invoice_id invoice) with
    | Some l => Some l
    | None => paymentLink
    end
  else paymentLink.

Definition link_calls (invoice : invoice) (paymentLink : option string)
    : list call :=
  if no_link paymentLink then [StripeGetPaymentLink (stripe_invoice_id invoice)]
  else [].

(** The request made of the content generator by an eligible evaluation. *)
Definition request_of (e : env) (invoice : invoice)
    (paymentLink : option string) : email_request :=
  chase_request invoice (computeDaysOverdue e invoice)
                (fetched_link e invoice paymentLink).

Definition mail_of (e : env) (invoice : invoice)
    (paymentLink : option string) (c : email_content) : mail :=
  chase_mail invoice c (fetched_link e invoice paymentLink).

(** The database after the commit of a chase with content [c]. *)
Definition committed (e : env) (invoice : invoice) (c : email_content)
    (s : state) : state :=
  {| invoices :=
       update_rows e (computeDaysOverdue e invoice) (inv_id invoice) (invoices s);
     chase_emails :=
       chase_emails s ++ [sent_row e invoice (computeDaysOverdue e invoice) c];
     app_config := app_config s;
     calls := calls s |}.

(** The four ways an evaluation ends. *)
Inductive outcome : Type :=
| NotEligible
| ContentFailed
| DeliveryFailed (c : email_content)
| Sent (c : email_content).

Definition outcome_of (e : env) (invoice : invoice)
    (configMap : gmap string (option string))
    (paymentLink : option string) (options : options) : outcome :=
  if eligible e invoice configMap options then
    match generateChaseEmail e (request_of e invoice paymentLink) with
    | None => ContentFailed
    | Some c =>
        if sendChaseEmail e (mail_of e invoice paymentLink c) then Sent c
        else DeliveryFailed c
    end
  else NotEligible.

(** The stored chase count of invoice [id], NULL read as 0 (the COALESCE
    of the commit); [None] when the table has no such row. *)
Definition stored_count (id : Z) (s : state) : option Z :=
  match List.filter (fun r => inv_id r =? id) (invoices s) with
  | r :: _ => Some (default 0 (chase_count r))
  | [] => None
  end.

(** The [sent] records of invoice [id]. *)
Definition sent_records (id : Z) (s : state) : list chase_email :=
  List.filter
    (fun r => (ce_invoice_id r =? id)
              && match ce_status r with EmailSent => true | _ => false end)
    (chase_emails s).

(** One evaluation of a sequence: its own world, snapshot, configuration,
    link and options. *)
Record evaluation : Type := {
  ev_env : env;
  ev_invoice : invoice;
  ev_config : gmap string (option string);
  ev_link : option string;
  ev_options : options
}.

Definition evaluate (ev : evaluation) : M bool :=
  maybeSendChase (ev_env ev) (ev_invoice ev) (ev_config ev) (ev_link ev)
                 (ev_options ev).

(** The state after a sequence of evaluations, whatever each returns or
    throws. *)
Definition run_evaluations (evs : list evaluation) (s : state) : state :=
  fold_left (fun s ev => snd (evaluate ev s)) evs s.

(** The batch as the specification describes it: every candidate is
    evaluated in turn, on the state its predecessor left, and its result
    (or exception) is recorded. *)
Fixpoint batch_trace (e : env) (configMap : gmap string (option string))
    (candidates : list invoice) (s : state) : list (result bool) * state :=
  match candidates with
  | [] => ([], s)
  | invoice :: rest =>
      let r := maybeSendChase e invoice configMap None no_options s in
      let t := batch_trace e configMap rest (snd r) in
      (fst r :: fst t, snd t)
  end.

Definition is_sent (r : result bool) : bool :=
  match r with Returned true => true | _ => false end.

(** The atomic effects of an evaluation, one for each [await] that
    reaches a service or the database. Between two of them another
    evaluation may run. *)
Inductive effect : Type :=
| Call (c : call)
| InsertChase (row : chase_email)
| UpdateInvoice (e : env) (daysOverdue : JS.number) (id : Z).

Definition apply_effect (s : state) (f : effect) : state :=
  match f with
  | Call c => add_calls [c] s
  | InsertChase row => snd (insert_chase_email row s)
  | UpdateInvoice e daysOverdue id => snd (update_invoice e daysOverdue id s)
  end.

Definition run_effects (fs : list effect) (s : state) : state :=
  fold_left apply_effect fs s.

(** The effects of one evaluation, in program order. *)
Definition effects_of (e : env) (invoice : invoice)
    (configMap : gmap string (option string))
    (paymentLink : option string) (options : options) : list effect :=
  match outcome_of e invoice configMap paymentLink options with
  | NotEligible => []
  | ContentFailed =>
      map Call (link_calls invoice paymentLink
                ++ [OpenAIGenerate (request_of e invoice paymentLink)])
  | DeliveryFailed c =>
      map Call (link_calls invoice paymentLink
                ++ [OpenAIGenerate (request_of e invoice paymentLink);
                    GmailSend (mail_of e invoice paymentLink c)])
  | Sent c =>
      map Call (link_calls invoice paymentLink
                ++ [OpenAIGenerate (request_of e invoice paymentLink);
                    GmailSend (mail_of e invoice paymentLink c)])
      ++ [InsertChase (sent_row e invoice (computeDaysOverdue e invoice) c);
          UpdateInvoice e (computeDaysOverdue e invoice) (inv_id invoice)]
  end.

Definition result_of (o : outcome) : result bool :=
  match o with
  | NotEligible => Returned false
  | ContentFailed => Threw OpenAIError
  | DeliveryFailed _ => Threw GmailError
  | Sent _ => Returned true
  end.

(** [interleaved l1 l2 l]: [l] runs [l1] and [l2] concurrently, each in
    its own order. *)
Inductive interleaved {A : Type} : list A -> list A -> list A -> Prop :=
| interleaved_nil : interleaved [] [] []
| interleaved_left x l1 l2 l :
    interleaved l1 l2 l -> interleaved (x :: l1) l2 (x :: l)
| interleaved_right x l1 l2 l :
    interleaved l1 l2 l -> interleaved l1 (x :: l2) (x :: l).

(** What an effect adds to the stored count of invoice [id], and to the
    number of its [sent] records. *)
Definition count_delta (id : Z) (f : effect) : Z :=
  match f with
  | UpdateInvoice _ _ id' => if id' =? id then 1 else 0
  | _ => 0
  end.

Definition sent_delta (id : Z) (f : effect) : nat :=
  match f with
  | InsertChase row =>
      if (ce_invoice_id row =? id)
         && match ce_status row with EmailSent => true | _ => false end
      then 1%nat else 0%nat
  | _ => 0%nat
  end.

Definition count_total (id : Z) (fs : list effect) : Z :=
  foldr (fun f n => count_delta id f + n) 0 fs.

Definition sent_total (id : Z) (fs : list effect) : nat :=
  foldr (fun f n => (sent_delta id f + n)%nat) 0%nat fs.

(* ===================================================================== *)
(** ** Sample worlds and invoices *)
(* ===================================================================== *)

(** 2024-01-13T00:00:00Z. *)
Definition now0 : Z := 1705104000000.

Definition hour : Z := 1000 * 60 * 60.

(** A world in which every service answers. *)
Definition world0 : env :=
  {| now := now0;
     Date_parse := fun _ => JS.InvalidDate;
     due_before_today := fun _ => true;
     getPaymentLink := fun _ => Some "https://pay.example/in_1";
     generateChaseEmail := fun _ =>
       Some {| subject := "Payment reminder"; body := "Dear Ada," |};
     sendChaseEmail := fun _ => true |}.

(** The same world with the delivery service down. *)
Definition world_gmail_down : env :=
  {| now := now0;
     Date_parse := fun _ => JS.InvalidDate;
     due_before_today := fun _ => true;
     getPaymentLink := fun _ => Some "https://pay.example/in_1";
     generateChaseEmail := fun _ =>
       Some {| subject := "Payment reminder"; body := "Dear Ada," |};
     sendChaseEmail := fun _ => false |}.

(** An invoice due on 2024-01-01. *)
Definition an_invoice (id : Z) (st : invoice_status) (days : option Z)
    (last : option JS.Date) (count : option Z) : invoice :=
  {| inv_id := id;
     stripe_invoice_id := "in_1";
     customer_email := "ada@example.com";
     customer_name := Some "Ada Client";
     amount := "120.00";
     due_date := Some "2024-01-01";
     status := st;
     overdue_days := days;
     last_chase_date := last;
     chase_count := count;
     chase_paused := FlagNum 0 |}.

(** A second customer. *)
Definition another_invoice (id : Z) (st : invoice_status) (days : option Z)
    (last : option JS.Date) (count : option Z) : invoice :=
  {| inv_id := id;
     stripe_invoice_id := "in_2";
     customer_email := "bob@example.com";
     customer_name := Some "Bob Buyer";
     amount := "75.50";
     due_date := Some "2024-01-01";
     status := st;
     overdue_days := days;
     last_chase_date := last;
     chase_count := count;
     chase_paused := FlagNum 0 |}.

(** A world in which the mail for invoice in_1 cannot be delivered. *)
Definition world_in_1_bounces : env :=
  {| now := now0;
     Date_parse := fun _ => JS.InvalidDate;
     due_before_today := fun _ => true;
     getPaymentLink := fun _ => None;
     generateChaseEmail := fun _ =>
       Some {| subject := "Payment reminder"; body := "Hello," |};
     sendChaseEmail := fun m =>
       negb (String.eqb (mail_stripe_invoice_id m) "in_1") |}.

(** A database holding the given invoices and configuration, and nothing
    else. *)
Definition store (rows : list invoice) (config : list (string * option string))
    : state :=
  {| invoices := rows; chase_emails := []; app_config := config; calls := [] |}.

Definition with_status (st : invoice_status) (r : invoice) : invoice :=
  {| inv_id := inv_id r;
     stripe_invoice_id := stripe_invoice_id r;
     customer_email := customer_email r;
     customer_name := customer_name r;
     amount := amount r;
     due_date := due_date r;
     status := st;
     overdue_days := overdue_days r;
     last_chase_date := last_chase_date r;
     chase_count := chase_count r;
     chase_paused := chase_paused r |}.

(* ===================================================================== *)
(** ** Further vocabulary *)
(* ===================================================================== *)

(** The evaluation the batch makes of one candidate. *)
Definition batch_evaluation (e : env)
    (configMap : gmap string (option string)) (invoice : invoice) : evaluation :=
  {| ev_env := e; ev_invoice := invoice; ev_config := configMap;
     ev_link := None; ev_options := no_options |}.

(** The deliveries among the calls made so far. *)
Definition deliveries (s : state) : list mail :=
  omap (fun c => match c with GmailSend m => Some m | _ => None end) (calls s).

(** The columns of an invoice that no evaluation writes. *)
Definition kept_columns (r : invoice)
    : Z * string * string * option string * string * option string * flag :=
  (inv_id r, stripe_invoice_id r, customer_email r, customer_name r, amount r,
   due_date r, chase_paused r).

(** The WHERE clause and the column list of [selectCandidateInvoices]. *)
Definition is_candidate (e : env) (r : invoice) : bool :=
  match status r with
  | Unpaid | Overdue => due_before_today e (due_date r)
  | _ => false
  end.

Definition as_candidate (r : invoice) : invoice :=
  {| inv_id := inv_id r;
     stripe_invoice_id := stripe_invoice_id r;
     customer_email := customer_email r;
     customer_name := customer_name r;
     amount := amount r;
     due_date := due_date r;
     status := status r;
     overdue_days := overdue_days r;
     last_chase_date := last_chase_date r;
     chase_count := chase_count r;
     chase_paused := FlagAbsent |}.

(** An invoice whose stored row says it was chased at this very instant,
    with at least five cached days overdue. *)
Definition just_chased (e : env) (r : invoice) : Prop :=
  last_chase_date r = Some (JS.DateAt (now e))
  /\ exists n, overdue_days r = Some n /\ 5 <= n.

(** The batch evaluation of this candidate sends. *)
Definition batch_sends (e : env) (configMap : gmap string (option string))
    (invoice : invoice) : bool :=
  is_sent (result_of (outcome_of e invoice configMap None no_options)).

(** The character of a decimal digit. *)
Definition digit_char (k : Z) : ascii := ascii_of_nat (Z.to_nat (48 + k)).

(** A date written the way [toISOString().split('T')[0]] writes it, as
    stripe-service.js does for [due_date]: YYYY-MM-DD. *)
Definition iso_date (y m d : Z) : string :=
  String (digit_char (y / 1000))
    (String (digit_char (y / 100 mod 10))
       (String (digit_char (y / 10 mod 10))
          (String (digit_char (y mod 10))
             (String "-"
                (String (digit_char (m / 10))
                   (String (digit_char (m mod 10))
                      (String "-"
                         (String (digit_char (d / 10))
                            (String (digit_char (d mod 10)) ""))))))))).

(* ===================================================================== *)
(** ** Properties *)
(* ===================================================================== *)

(** *** How an evaluation ends *)

Lemma add_calls_nil s : add_calls [] s = s.
Proof. destruct s; unfold add_calls; simpl. by rewrite app_nil_r. Qed.

Lemma add_calls_add_calls a b s :
  add_calls b (add_calls a s) = add_calls (a ++ b) s.
Proof. unfold add_calls; simpl. by rewrite app_assoc. Qed.

(** [maybeSendChase] computes the outcome table. *)
Lemma maybeSendChase_outcome e invoice configMap paymentLink options s :
  maybeSendChase e invoice configMap paymentLink options s =
  match outcome_of e invoice configMap paymentLink options with
  | NotEligible => (Returned false, s)
  | ContentFailed =>
      (Threw OpenAIError,
       add_calls (link_calls invoice paymentLink
                  ++ [OpenAIGenerate (request_of e invoice paymentLink)]) s)
  | DeliveryFailed c =>
      (Threw GmailError,
       add_calls (link_calls invoice paymentLink
                  ++ [OpenAIGenerate (request_of e invoice paymentLink);
                      GmailSend (mail_of e invoice paymentLink c)]) s)
  | Sent c =>
      (Returned true,
       committed e invoice c
         (add_calls (link_calls invoice paymentLink
                     ++ [OpenAIGenerate (request_of e invoice paymentLink);
                         GmailSend (mail_of e invoice paymentLink c)]) s))
  end.
Proof.
  unfold maybeSendChase, outcome_of, eligible.
  destruct (getIntervalHoursForOverdueDays _) as [H|]; [|reflexivity].
  destruct (chaseEnabled configMap); [|reflexivity].
  destruct (paused_gate invoice options); [reflexivity|].
  destruct (cap_gate invoice configMap); [reflexivity|].
  destruct (interval_gate e invoice options H); [reflexivity|].
  cbn [negb andb].
  unfold request_of, mail_of, fetched_link, link_calls.
  destruct (no_link paymentLink) eqn:Hl;
    [destruct (getPaymentLink e _) as [l|]|];
    cbv [mbind M_bind mret M_ret log_call throw insert_chase_email
         update_invoice];
    (destruct (generateChaseEmail e _) as [c|];
       [destruct (sendChaseEmail e _)|]);
    unfold committed; rewrite ?add_calls_add_calls; reflexivity.
Qed.


Lemma not_eligible_no_effect e invoice configMap paymentLink options s :
  eligible e invoice configMap options = false ->
  maybeSendChase e invoice configMap paymentLink options s = (Returned false, s).
Proof.
  intros H. rewrite maybeSendChase_outcome. unfold outcome_of. by rewrite H.
Qed.

(** *** The threshold gate *)

Lemma interval_below_5 d : d < 5 -> getIntervalHoursForOverdueDays (JS.Int d) = None.
Proof.
  intros H. unfold getIntervalHoursForOverdueDays, JS.geb.
  destruct (Z.leb_spec 10 d); [lia|].
  destruct (Z.leb_spec 7 d); [lia|].
  destruct (Z.leb_spec 5 d); [lia|]. reflexivity.
Qed.

(** C7. An invoice whose computed days overdue are fewer than 5 is never
    chased: [maybeSendChase] returns false and the whole state (invoices,
    chase_emails, calls to the services) is what it was. *)
Theorem below_threshold_no_chase e invoice configMap paymentLink options s d :
  computeDaysOverdue e invoice = JS.Int d ->
  d < 5 ->
  maybeSendChase e invoice configMap paymentLink options s = (Returned false, s).
Proof.
  intros Hd Hlt. unfold maybeSendChase. rewrite Hd.
  by rewrite (interval_below_5 d Hlt).
Qed.

Lemma below_threshold_no_chase_witness :
  maybeSendChase world0 (an_invoice 1 Overdue (Some 3) None (Some 0)) ∅ None
    {| bypassPaused := true; bypassInterval := true |}
    (store [an_invoice 1 Overdue (Some 3) None (Some 0)] [])
  = (Returned false, store [an_invoice 1 Overdue (Some 3) None (Some 0)] []).
Proof.
  apply (below_threshold_no_chase world0 _ _ _ _ _ 3); [reflexivity | lia].
Defined.

(** *** The cap *)

(** A count at or above a maximum that is a number closes the cap gate. *)
Lemma cap_gate_closed invoice configMap :
  JS.geb (currentCount invoice) (maxChaseCount configMap) = true ->
  cap_gate invoice configMap = true.
Proof.
  intros Hcap. unfold cap_gate. rewrite Hcap.
  destruct (maxChaseCount configMap), (currentCount invoice);
    simpl in *; congruence.
Qed.

Lemma cap_gate_not_eligible e invoice configMap options :
  cap_gate invoice configMap = true ->
  eligible e invoice configMap options = false.
Proof.
  intros Hcap. unfold eligible.
  destruct (getIntervalHoursForOverdueDays _); [|reflexivity].
  rewrite Hcap. cbn [negb]. by rewrite andb_false_r.
Qed.

(** C3. Once the chase count has reached the configured maximum,
    [maybeSendChase] returns false and changes nothing, whatever the
    options: no value of [bypassPaused] or [bypassInterval] gets past
    the cap. *)
Theorem cap_never_bypassed e invoice configMap paymentLink options s :
  JS.geb (currentCount invoice) (maxChaseCount configMap) = true ->
  maybeSendChase e invoice configMap paymentLink options s = (Returned false, s).
Proof.
  intros Hcap. apply not_eligible_no_effect, cap_gate_not_eligible.
  by apply cap_gate_closed.
Qed.

Lemma cap_never_bypassed_witness :
  maybeSendChase world0 (an_invoice 1 Overdue (Some 12) None (Some 4))
    (<["max_chase_count" := Some "4"]> ∅) None
    {| bypassPaused := true; bypassInterval := true |}
    (store [an_invoice 1 Overdue (Some 12) None (Some 4)] [])
  = (Returned false, store [an_invoice 1 Overdue (Some 12) None (Some 4)] []).
Proof.
  apply (cap_never_bypassed world0); vm_compute; reflexivity.
Defined.

(** The same through the expedite handler. *)
Lemma expedite_respects_cap e id s invoice rest :
  List.filter (fun r => inv_id r =? id) (invoices s) = invoice :: rest ->
  JS.geb (currentCount invoice) (maxChaseCount (getAppConfigMap s)) = true ->
  expedite e id s = (Ok200 false, s).
Proof.
  intros Hrow Hcap. unfold expedite. rewrite Hrow.
  change (fold_left _ (app_config s) ∅) with (getAppConfigMap s).
  rewrite not_eligible_no_effect; [reflexivity|].
  by apply cap_gate_not_eligible, cap_gate_closed.
Qed.

(** The maximum is read from a non-empty configured value; an empty or
    missing value stands for 4. *)
Lemma maxChaseCount_configured (configMap : gmap string (option string)) v :
  configMap !! "max_chase_count" = Some (Some v) ->
  v <> "" ->
  maxChaseCount configMap = JS.parseInt v.
Proof.
  intros Hv Hne. unfold maxChaseCount, get_or. rewrite Hv.
  destruct (String.eqb_spec v ""); [contradiction | reflexivity].
Qed.

Lemma maxChaseCount_default (configMap : gmap string (option string)) :
  configMap !! "max_chase_count" = None
  \/ configMap !! "max_chase_count" = Some None
  \/ configMap !! "max_chase_count" = Some (Some "") ->
  maxChaseCount configMap = JS.Int 4.
Proof.
  unfold maxChaseCount, get_or. intros [-> | [-> | ->]]; reflexivity.
Qed.

(** C10. A [max_chase_count] that [parseInt] reads as [NaN] switches the
    cap off: when the other gates are passed and the services answer,
    the chase is sent and committed whatever the invoice's chase count. *)
Theorem unparseable_max_disables_cap
    e invoice configMap paymentLink options s H c :
  maxChaseCount configMap = JS.NaN ->
  getIntervalHoursForOverdueDays (computeDaysOverdue e invoice) = Some H ->
  chaseEnabled configMap = true ->
  paused_gate invoice options = false ->
  interval_gate e invoice options H = false ->
  generateChaseEmail e (request_of e invoice paymentLink) = Some c ->
  sendChaseEmail e (mail_of e invoice paymentLink c) = true ->
  cap_gate invoice configMap = false
  /\ maybeSendChase e invoice configMap paymentLink options s =
     (Returned true,
      committed e invoice c
        (add_calls (link_calls invoice paymentLink
                    ++ [OpenAIGenerate (request_of e invoice paymentLink);
                        GmailSend (mail_of e invoice paymentLink c)]) s)).
Proof.
  intros Hmax HH Hen Hp Hi Hg Hs.
  assert (cap_gate invoice configMap = false) as Hcap.
  { unfold cap_gate. by rewrite Hmax. }
  split; [exact Hcap|].
  rewrite maybeSendChase_outcome. unfold outcome_of, eligible.
  by rewrite HH, Hen, Hp, Hcap, Hi, Hg, Hs.
Qed.

Lemma unparseable_max_disables_cap_witness :
  let inv := an_invoice 1 Overdue (Some 12) None (Some 1000) in
  let cfg : gmap string (option string) :=
    <["max_chase_count" := Some "unlimited"]> ∅ in
  JS.parseInt "unlimited" = JS.NaN
  /\ fst (maybeSendChase world0 inv cfg None no_options (store [inv] []))
     = Returned true
  /\ stored_count 1
       (snd (maybeSendChase world0 inv cfg None no_options (store [inv] [])))
     = Some 1001.
Proof.
  pose proof (unparseable_max_disables_cap world0
                (an_invoice 1 Overdue (Some 12) None (Some 1000))
                (<["max_chase_count" := Some "unlimited"]> ∅) None no_options
                (store [an_invoice 1 Overdue (Some 12) None (Some 1000)] [])
                24 {| subject := "Payment reminder"; body := "Dear Ada," |}
                eq_refl eq_refl eq_refl eq_refl eq_refl eq_refl eq_refl)
    as [_ Hrun].
  cbv zeta. rewrite Hrun. repeat split; reflexivity.
Defined.

(** *** The interval gate *)

(** C5. With a last chase date, and the interval not bypassed, an invoice
    chased fewer hours ago than its tier requires (less the tolerance of
    0.01 hour) is not chased and nothing changes. At 8 days overdue the tier
    is 48 hours: a chase 30 hours ago blocks the next one, a chase 50 hours
    ago does not. *)
Theorem interval_gate_blocks :
  (forall e invoice configMap paymentLink options s last H,
      last_chase_date invoice = Some (JS.DateAt last) ->
      bypassInterval options = false ->
      getIntervalHoursForOverdueDays (computeDaysOverdue e invoice) = Some H ->
      interval_not_elapsed (now e) last H = true ->
      maybeSendChase e invoice configMap paymentLink options s
      = (Returned false, s))
  /\ getIntervalHoursForOverdueDays (JS.Int 8) = Some 48
  /\ (let inv := an_invoice 1 Overdue (Some 8)
                   (Some (JS.DateAt (now0 - 30 * hour))) (Some 1) in
      maybeSendChase world0 inv ∅ None no_options (store [inv] [])
      = (Returned false, store [inv] []))
  /\ (let inv := an_invoice 1 Overdue (Some 8)
                   (Some (JS.DateAt (now0 - 50 * hour))) (Some 1) in
      eligible world0 inv ∅ no_options = true
      /\ fst (maybeSendChase world0 inv ∅ None no_options (store [inv] []))
         = Returned true).
Proof.
  split; [|split; [reflexivity|split; vm_compute; auto]].
  intros e invoice configMap paymentLink options s last H Hlast Hby HH Hlt.
  apply not_eligible_no_effect. unfold eligible. rewrite HH.
  assert (interval_gate e invoice options H = true) as ->.
  { unfold interval_gate. by rewrite Hby, Hlast, Hlt. }
  cbn [negb]. by rewrite andb_false_r.
Qed.

Lemma interval_gate_blocks_witness :
  maybeSendChase world0
    (an_invoice 1 Overdue (Some 8) (Some (JS.DateAt (now0 - 30 * hour))) (Some 1))
    ∅ None no_options (store [] [("chase_enabled", Some "true")])
  = (Returned false, store [] [("chase_enabled", Some "true")]).
Proof.
  apply (proj1 interval_gate_blocks world0 _ _ _ _ _ (now0 - 30 * hour) 48);
    vm_compute; reflexivity.
Defined.

(** *** Terminal statuses *)

(** The batch only ever evaluates unpaid and overdue invoices. *)
Lemma candidates_not_terminal e s r :
  In r (selectCandidateInvoices e s) -> status r = Unpaid \/ status r = Overdue.
Proof.
  unfold selectCandidateInvoices. rewrite in_map_iff.
  intros (r0 & <- & Hin). apply filter_In in Hin as [_ Hst]. simpl.
  destruct (status r0); auto; discriminate.
Qed.

(** [maybeSendChase] itself never looks at the status. *)
Lemma maybeSendChase_ignores_status st e invoice configMap paymentLink options s :
  maybeSendChase e (with_status st invoice) configMap paymentLink options s
  = maybeSendChase e invoice configMap paymentLink options s.
Proof. reflexivity. Qed.

(** C1. What the code does on a paid invoice reached through the expedite
    handler: the chase is sent, a [sent] record is written, the count goes
    from 0 to 1 and the invoice is put back to [overdue]. *)
Theorem expedite_chases_paid_invoice :
  let inv := an_invoice 1 Paid (Some 12) None (Some 0) in
  let r := expedite world0 1 (store [inv] []) in
  fst r = Ok200 true
  /\ map status (invoices (snd r)) = [Overdue]
  /\ map ce_status (chase_emails (snd r)) = [EmailSent]
  /\ stored_count 1 (snd r) = Some 1
  /\ exists m, In (GmailSend m) (calls (snd r)).
Proof.
  vm_compute. repeat split; try reflexivity.
  eexists. right; right; left. reflexivity.
Qed.

(** The same on a cancelled invoice handed to [maybeSendChase]. *)
Lemma cancelled_invoice_is_chased :
  let inv := an_invoice 1 Cancelled (Some 12) None (Some 0) in
  fst (maybeSendChase world0 inv ∅ None no_options (store [inv] []))
  = Returned true.
Proof. vm_compute. reflexivity. Qed.

(** *** Failure of a collaborator *)

(** C4, as the code has it. When the content generator or the delivery
    fails for an eligible invoice, [maybeSendChase] throws; the tables are
    what they were (no chase record of any status is written, the invoice
    row is untouched), and the batch loop goes on with the next invoice. *)
Theorem collaborator_failure_changes_no_table
    e invoice configMap paymentLink options s :
  eligible e invoice configMap options = true ->
  (generateChaseEmail e (request_of e invoice paymentLink) = None
   \/ exists c,
       generateChaseEmail e (request_of e invoice paymentLink) = Some c
       /\ sendChaseEmail e (mail_of e invoice paymentLink c) = false) ->
  exists err s',
    maybeSendChase e invoice configMap paymentLink options s = (Threw err, s')
    /\ invoices s' = invoices s
    /\ chase_emails s' = chase_emails s
    /\ app_config s' = app_config s
    /\ (paymentLink = None -> options = no_options ->
        forall rest n,
          chase_loop e configMap (invoice :: rest) n s
          = chase_loop e configMap rest n s').
Proof.
  intros Hel Hfail.
  pose proof (maybeSendChase_outcome e invoice configMap paymentLink options s)
    as Hrun.
  unfold outcome_of in Hrun. rewrite Hel in Hrun.
  destruct Hfail as [Hg | (c & Hg & Hs)]; rewrite Hg in Hrun;
    [|rewrite Hs in Hrun];
    (eexists _, _; split; [exact Hrun|]; repeat split; try reflexivity;
     intros -> -> rest n; cbn [chase_loop]; by rewrite Hrun).
Qed.

Lemma collaborator_failure_changes_no_table_witness :
  let inv := an_invoice 1 Overdue (Some 12) None (Some 0) in
  exists err s',
    maybeSendChase world_gmail_down inv ∅ None no_options (store [inv] [])
    = (Threw err, s')
    /\ invoices s' = [inv]
    /\ chase_emails s' = [].
Proof.
  assert (eligible world_gmail_down
            (an_invoice 1 Overdue (Some 12) None (Some 0)) ∅ no_options = true)
    as Hel by (vm_compute; reflexivity).
  destruct (collaborator_failure_changes_no_table world_gmail_down
              (an_invoice 1 Overdue (Some 12) None (Some 0)) ∅ None no_options
              (store [an_invoice 1 Overdue (Some 12) None (Some 0)] [])
              Hel
              (or_intror
                 (ex_intro _ {| subject := "Payment reminder";
                                body := "Dear Ada," |}
                    (conj eq_refl eq_refl))))
    as (err & s' & Hrun & Hinv & Hce & _).
  exists err, s'. auto.
Defined.

(** The claim as it was written fails: after a failed delivery the
    chase_emails table holds no record at all. *)
Lemma delivery_failure_writes_no_record :
  let inv := an_invoice 1 Overdue (Some 12) None (Some 0) in
  let r := maybeSendChase world_gmail_down inv ∅ None no_options
             (store [inv] []) in
  eligible world_gmail_down inv ∅ no_options = true
  /\ fst r = Threw GmailError
  /\ chase_emails (snd r) = [].
Proof. vm_compute. auto. Qed.

(** *** The chase counter *)

Lemma filter_update_rows e d id id' rows :
  List.filter (fun r => inv_id r =? id) (update_rows e d id' rows)
  = update_rows e d id' (List.filter (fun r => inv_id r =? id) rows).
Proof.
  unfold update_rows. induction rows as [|r rows IH]; [reflexivity|].
  cbn [map List.filter].
  assert (inv_id (if inv_id r =? id' then chased_row e d r else r) = inv_id r)
    as -> by (destruct (inv_id r =? id'); reflexivity).
  destruct (inv_id r =? id); cbn [map]; by rewrite IH.
Qed.

Lemma stored_count_add_calls id cs s :
  stored_count id (add_calls cs s) = stored_count id s.
Proof. reflexivity. Qed.

(** The commit adds one to the count of the invoice it is keyed on, and
    leaves every other count alone. *)
Lemma stored_count_committed e invoice content id s c :
  stored_count id s = Some c ->
  stored_count id (committed e invoice content s)
  = Some (if inv_id invoice =? id then c + 1 else c).
Proof.
  unfold stored_count, committed. cbn [invoices].
  rewrite filter_update_rows.
  destruct (List.filter _ (invoices s)) as [|r rest] eqn:Hf; [discriminate|].
  intros [= <-]. cbn [update_rows map].
  assert (inv_id r = id) as Hid.
  { assert (In r (List.filter (fun r => inv_id r =? id) (invoices s))) as Hin
      by (rewrite Hf; left; reflexivity).
    apply filter_In in Hin as [_ Hin]. lia. }
  rewrite Hid, (Z.eqb_sym (inv_id invoice) id).
  destruct (id =? inv_id invoice); reflexivity.
Qed.

Lemma evaluate_count ev s id c :
  stored_count id s = Some c ->
  stored_count id (snd (evaluate ev s))
  = Some (if is_sent (fst (evaluate ev s)) && (inv_id (ev_invoice ev) =? id)
          then c + 1 else c).
Proof.
  intros Hc. unfold evaluate. rewrite maybeSendChase_outcome.
  destruct (outcome_of _ _ _ _ _); cbn [fst snd is_sent andb];
    rewrite ?stored_count_add_calls; auto.
  apply stored_count_committed. by rewrite stored_count_add_calls.
Qed.

Lemma run_evaluations_count id evs s c :
  stored_count id s = Some c ->
  exists c', stored_count id (run_evaluations evs s) = Some c' /\ c <= c'.
Proof.
  revert s c. induction evs as [|ev evs IH]; intros s c Hc.
  - exists c. split; [exact Hc | lia].
  - cbn [run_evaluations fold_left].
    destruct (IH _ _ (evaluate_count ev s id c Hc)) as (c' & Hc' & Hle).
    exists c'. split; [exact Hc'|].
    destruct (is_sent _ && _) in Hle; lia.
Qed.

(** C6. An evaluation that returns true adds exactly one to the stored
    chase count of the invoice it evaluated; an evaluation that returns
    false (or throws) changes no count; hence over any sequence of
    evaluations the count of an invoice never goes down. *)
Theorem chase_count_monotone id s c :
  stored_count id s = Some c ->
  (forall ev,
      stored_count id (snd (evaluate ev s))
      = Some (if is_sent (fst (evaluate ev s))
                 && (inv_id (ev_invoice ev) =? id)
              then c + 1 else c))
  /\ (forall evs,
         exists c', stored_count id (run_evaluations evs s) = Some c' /\ c <= c').
Proof.
  intros Hc. split; [intros ev; by apply evaluate_count|].
  intros evs. by apply run_evaluations_count.
Qed.

Lemma chase_count_monotone_witness :
  let inv := an_invoice 1 Overdue (Some 12) None (Some 2) in
  let ev := {| ev_env := world0; ev_invoice := inv; ev_config := ∅;
               ev_link := None; ev_options := no_options |} in
  stored_count 1 (snd (evaluate ev (store [inv] []))) = Some 3
  /\ exists c', stored_count 1 (run_evaluations [ev; ev] (store [inv] []))
                = Some c' /\ 2 <= c'.
Proof.
  cbv zeta.
  pose proof (chase_count_monotone 1
                (store [an_invoice 1 Overdue (Some 12) None (Some 2)] []) 2
                eq_refl) as [Hone Hseq].
  split; [|apply Hseq].
  rewrite Hone. vm_compute. reflexivity.
Defined.

(** *** The batch *)

Lemma chase_loop_trace e configMap candidates n s :
  chase_loop e configMap candidates n s
  = (n + Z.of_nat (length (List.filter is_sent
                             (fst (batch_trace e configMap candidates s)))),
     snd (batch_trace e configMap candidates s)).
Proof.
  revert n s. induction candidates as [|invoice rest IH]; intros n s.
  - cbn. f_equal. lia.
  - cbn [chase_loop batch_trace fst snd List.filter].
    destruct (maybeSendChase e invoice configMap None no_options s)
      as [[[|]|err] s'];
      rewrite IH; cbn [fst snd is_sent length]; f_equal; lia.
Qed.

Lemma batch_trace_length e configMap candidates s :
  length (fst (batch_trace e configMap candidates s)) = length candidates.
Proof.
  revert s. induction candidates as [|invoice rest IH]; intros s;
    [reflexivity|]. cbn. by rewrite IH.
Qed.

Lemma batch_trace_app e configMap pre post s :
  batch_trace e configMap (pre ++ post) s
  = (fst (batch_trace e configMap pre s)
     ++ fst (batch_trace e configMap post (snd (batch_trace e configMap pre s))),
     snd (batch_trace e configMap post (snd (batch_trace e configMap pre s)))).
Proof.
  revert s. induction pre as [|invoice pre IH]; intros s.
  - cbn. by destruct (batch_trace e configMap post s).
  - cbn [app batch_trace fst snd]. by rewrite IH.
Qed.

(** C8. The batch evaluates every candidate, each on the state left by
    the one before it, whether or not earlier evaluations threw: the
    invoice at any position of the candidate list is evaluated, and the
    call returns the number of evaluations that returned true together
    with the number of candidates. *)
Theorem batch_evaluates_every_candidate e s :
  let configMap := getAppConfigMap s in
  let candidates := selectCandidateInvoices e s in
  let t := batch_trace e configMap candidates s in
  processOverdueChasing e s
  = (Returned {| sent := Z.of_nat (length (List.filter is_sent (fst t)));
                 totalCandidates := Z.of_nat (length candidates) |},
     snd t)
  /\ length (fst t) = length candidates
  /\ forall pre invoice post,
       candidates = pre ++ invoice :: post ->
       fst t !! length pre
       = Some (fst (maybeSendChase e invoice configMap None no_options
                      (snd (batch_trace e configMap pre s)))).
Proof.
  cbv zeta. split; [|split].
  - unfold processOverdueChasing. by rewrite chase_loop_trace.
  - apply batch_trace_length.
  - intros pre invoice post ->. rewrite batch_trace_app.
    cbn [batch_trace fst].
    apply list_lookup_middle. symmetry. apply batch_trace_length.
Qed.

(** A batch run is a sequence of evaluations, so no stored count goes
    down over it. *)
Lemma batch_trace_run_evaluations e configMap candidates s :
  snd (batch_trace e configMap candidates s)
  = run_evaluations
      (map (fun invoice =>
              {| ev_env := e; ev_invoice := invoice; ev_config := configMap;
                 ev_link := None; ev_options := no_options |})
           candidates) s.
Proof.
  revert s. induction candidates as [|invoice rest IH]; intros s;
    [reflexivity|].
  cbn [batch_trace snd map run_evaluations fold_left]. apply IH.
Qed.

Lemma batch_count_monotone e id s c :
  stored_count id s = Some c ->
  exists c',
    stored_count id (snd (processOverdueChasing e s)) = Some c' /\ c <= c'.
Proof.
  intros Hc. unfold processOverdueChasing. rewrite chase_loop_trace.
  cbn [snd]. rewrite batch_trace_run_evaluations.
  by apply run_evaluations_count.
Qed.

(** One undeliverable invoice does not keep the next from being chased. *)
Lemma batch_evaluates_every_candidate_witness :
  let s := store [an_invoice 1 Overdue (Some 12) None (Some 0);
                  another_invoice 2 Unpaid (Some 12) None (Some 0)] [] in
  fst (batch_trace world_in_1_bounces ∅ (selectCandidateInvoices world_in_1_bounces s) s)
  = [Threw GmailError; Returned true]
  /\ fst (processOverdueChasing world_in_1_bounces s)
     = Returned {| sent := 1; totalCandidates := 2 |}
  /\ map chase_count (invoices (snd (processOverdueChasing world_in_1_bounces s)))
     = [Some 0; Some 1].
Proof.
  cbv zeta. split; [vm_compute; reflexivity|].
  rewrite (proj1 (batch_evaluates_every_candidate world_in_1_bounces
                    (store [an_invoice 1 Overdue (Some 12) None (Some 0);
                            another_invoice 2 Unpaid (Some 12) None (Some 0)]
                           []))).
  vm_compute. auto.
Defined.

(** *** The next-chase display *)

Lemma hoursInterval_mirrors_policy d :
  hoursInterval d = getIntervalHoursForOverdueDays (JS.Int d).
Proof. reflexivity. Qed.

Lemma computeDaysOverdue_cached e invoice n :
  overdue_days invoice = Some n -> 0 <= n ->
  computeDaysOverdue e invoice = JS.Int n.
Proof.
  intros Hd Hn. unfold computeDaysOverdue. rewrite Hd.
  destruct (Z.leb_spec 0 n); [reflexivity | lia].
Qed.

(** C9, as the code has it. The tiers of [computeNextChaseInfo] are those
    of the interval policy, and on an invoice whose cached [overdue_days]
    is a non-negative number the interval it uses is the one the engine
    uses. The date returned is null below the threshold, now for an
    invoice never chased, and the last chase date plus the interval
    otherwise (for a valid last chase date whose sum is a valid date). *)
Theorem next_chase_info_mirrors_policy :
  (forall d, hoursInterval d = getIntervalHoursForOverdueDays (JS.Int d))
  /\ (forall e invoice n,
         overdue_days invoice = Some n -> 0 <= n ->
         hoursInterval (shown_daysOverdue invoice)
         = getIntervalHoursForOverdueDays (computeDaysOverdue e invoice))
  /\ (forall e invoice,
         hoursInterval (shown_daysOverdue invoice) = None ->
         computeNextChaseInfo e invoice
         = Returned {| next_chase_date := None;
                       days_until_next_chase := None |})
  /\ (forall e invoice H,
         hoursInterval (shown_daysOverdue invoice) = Some H ->
         last_chase_date invoice = None ->
         computeNextChaseInfo e invoice
         = Returned {| next_chase_date := Some (now e);
                       days_until_next_chase := Some (JS.Int 0) |})
  /\ (forall e invoice H last,
         hoursInterval (shown_daysOverdue invoice) = Some H ->
         last_chase_date invoice = Some (JS.DateAt last) ->
         Z.abs (last + H * 60 * 60 * 1000) <= 8640000000000000 ->
         exists days,
           computeNextChaseInfo e invoice
           = Returned {| next_chase_date := Some (last + H * 60 * 60 * 1000);
                         days_until_next_chase := Some days |}).
Proof.
  split; [exact hoursInterval_mirrors_policy|].
  split.
  { intros e invoice n Hd Hn.
    rewrite (computeDaysOverdue_cached e invoice n Hd Hn).
    unfold shown_daysOverdue. by rewrite Hd. }
  split.
  { intros e invoice HH. unfold computeNextChaseInfo. by rewrite HH. }
  split.
  { intros e invoice H HH Hlast. unfold computeNextChaseInfo.
    rewrite HH, Hlast, Z.sub_diag. reflexivity. }
  intros e invoice H last HH Hlast Hrange. unfold computeNextChaseInfo.
  rewrite HH, Hlast. unfold JS.TimeClip.
  destruct (Z.leb_spec (Z.abs (last + H * 60 * 60 * 1000)) 8640000000000000);
    [|lia].
  eexists. reflexivity.
Qed.

Lemma next_chase_info_mirrors_policy_witness :
  let inv := an_invoice 1 Overdue (Some 8) (Some (JS.DateAt (now0 - 30 * hour)))
               (Some 1) in
  hoursInterval (shown_daysOverdue inv)
  = getIntervalHoursForOverdueDays (computeDaysOverdue world0 inv)
  /\ exists days,
       computeNextChaseInfo world0 inv
       = Returned {| next_chase_date := Some (now0 + 18 * hour);
                     days_until_next_chase := Some days |}.
Proof.
  cbv zeta. split.
  - apply (proj1 (proj2 next_chase_info_mirrors_policy) world0 _ 8);
      [reflexivity | lia].
  - apply (proj2 (proj2 (proj2 (proj2 next_chase_info_mirrors_policy)))
             world0 _ 48 (now0 - 30 * hour));
      [reflexivity | reflexivity | vm_compute; discriminate].
Defined.

(** The claim as it was written fails: for an invoice with no cached
    [overdue_days], due twelve days ago, the engine works with 12 days and
    a 24 hour interval, the display with 0 days and no interval. *)
Lemma next_chase_info_ignores_due_date :
  let inv := an_invoice 1 Overdue None None (Some 0) in
  computeDaysOverdue world0 inv = JS.Int 12
  /\ getIntervalHoursForOverdueDays (computeDaysOverdue world0 inv) = Some 24
  /\ hoursInterval (shown_daysOverdue inv) = None
  /\ computeNextChaseInfo world0 inv
     = Returned {| next_chase_date := None; days_until_next_chase := None |}.
Proof. vm_compute. auto. Qed.

(** *** Two evaluations of one invoice *)

Lemma returned_true_committed e invoice configMap paymentLink options s s' :
  maybeSendChase e invoice configMap paymentLink options s = (Returned true, s') ->
  exists c,
    outcome_of e invoice configMap paymentLink options = Sent c
    /\ s' = committed e invoice c
              (add_calls (link_calls invoice paymentLink
                          ++ [OpenAIGenerate (request_of e invoice paymentLink);
                              GmailSend (mail_of e invoice paymentLink c)]) s).
Proof.
  rewrite maybeSendChase_outcome.
  destruct (outcome_of _ _ _ _ _) as [| |c|c]; intros [= <-].
  by exists c.
Qed.

Lemma sent_records_add_calls id cs s :
  sent_records id (add_calls cs s) = sent_records id s.
Proof. reflexivity. Qed.

Lemma sent_records_committed e invoice c s :
  sent_records (inv_id invoice) (committed e invoice c s)
  = sent_records (inv_id invoice) s
    ++ [sent_row e invoice (computeDaysOverdue e invoice) c].
Proof.
  unfold sent_records, committed. cbn [chase_emails].
  rewrite List.filter_app. cbn. by rewrite Z.eqb_refl.
Qed.

(** [maybeSendChase] is the run of its effects. *)
Lemma run_effects_calls cs s : run_effects (map Call cs) s = add_calls cs s.
Proof.
  revert s. induction cs as [|c cs IH]; intros s.
  - by rewrite add_calls_nil.
  - cbn [map run_effects fold_left apply_effect].
    change (fold_left apply_effect (map Call cs) (add_calls [c] s))
      with (run_effects (map Call cs) (add_calls [c] s)).
    by rewrite IH, add_calls_add_calls.
Qed.

Lemma run_effects_app fs gs s :
  run_effects (fs ++ gs) s = run_effects gs (run_effects fs s).
Proof. apply fold_left_app. Qed.

Lemma maybeSendChase_effects e invoice configMap paymentLink options s :
  maybeSendChase e invoice configMap paymentLink options s
  = (result_of (outcome_of e invoice configMap paymentLink options),
     run_effects (effects_of e invoice configMap paymentLink options) s).
Proof.
  rewrite maybeSendChase_outcome. unfold effects_of.
  destruct (outcome_of _ _ _ _ _); cbn [result_of];
    rewrite ?run_effects_app, ?run_effects_calls; reflexivity.
Qed.

Lemma stored_count_update e d id' id s c :
  stored_count id s = Some c ->
  stored_count id (snd (update_invoice e d id' s))
  = Some (c + (if id' =? id then 1 else 0)).
Proof.
  unfold stored_count, update_invoice. cbn [snd invoices].
  rewrite filter_update_rows.
  destruct (List.filter _ (invoices s)) as [|r rest] eqn:Hf; [discriminate|].
  intros [= <-]. cbn [update_rows map].
  assert (inv_id r = id) as Hid.
  { assert (In r (List.filter (fun r => inv_id r =? id) (invoices s))) as Hin
      by (rewrite Hf; left; reflexivity).
    apply filter_In in Hin as [_ Hin]. lia. }
  rewrite Hid, (Z.eqb_sym id' id).
  destruct (id =? id'); cbn [chased_row chase_count default]; f_equal; lia.
Qed.

Lemma stored_count_effect id s c f :
  stored_count id s = Some c ->
  stored_count id (apply_effect s f) = Some (c + count_delta id f).
Proof.
  intros Hc. destruct f as [call|row|e d id']; cbn [apply_effect count_delta].
  - rewrite stored_count_add_calls, Hc. f_equal. lia.
  - unfold stored_count in *. cbn. rewrite Z.add_0_r. exact Hc.
  - by apply stored_count_update.
Qed.

Lemma run_effects_count id fs s c :
  stored_count id s = Some c ->
  stored_count id (run_effects fs s) = Some (c + count_total id fs).
Proof.
  revert s c. induction fs as [|f fs IH]; intros s c Hc.
  - cbn. rewrite Hc. f_equal. lia.
  - cbn [run_effects fold_left count_total foldr].
    change (fold_left apply_effect fs (apply_effect s f))
      with (run_effects fs (apply_effect s f)).
    rewrite (IH _ _ (stored_count_effect id s c f Hc)).
    fold (count_total id fs). f_equal. lia.
Qed.

Lemma sent_records_effect id s f :
  length (sent_records id (apply_effect s f))
  = (length (sent_records id s) + sent_delta id f)%nat.
Proof.
  destruct f as [call|row|e d id']; cbn [apply_effect sent_delta].
  - rewrite sent_records_add_calls. lia.
  - unfold sent_records. cbn [insert_chase_email snd chase_emails].
    rewrite List.filter_app, length_app. cbn [List.filter].
    destruct ((ce_invoice_id row =? id) && _); cbn [length]; lia.
  - unfold sent_records. cbn. lia.
Qed.

Lemma run_effects_sent id fs s :
  length (sent_records id (run_effects fs s))
  = (length (sent_records id s) + sent_total id fs)%nat.
Proof.
  revert s. induction fs as [|f fs IH]; intros s.
  - cbn. lia.
  - cbn [run_effects fold_left sent_total foldr].
    change (fold_left apply_effect fs (apply_effect s f))
      with (run_effects fs (apply_effect s f)).
    rewrite IH, sent_records_effect. fold (sent_total id fs). lia.
Qed.

(** An interleaving adds up what its two sides add. *)
Lemma interleaved_totals id (l1 l2 l : list effect) :
  interleaved l1 l2 l ->
  count_total id l = count_total id l1 + count_total id l2
  /\ sent_total id l = (sent_total id l1 + sent_total id l2)%nat.
Proof.
  unfold count_total, sent_total.
  induction 1 as [|x l1 l2 l _ [IHc IHs]|x l1 l2 l _ [IHc IHs]];
    cbn [foldr]; split; lia.
Qed.

Lemma totals_app id fs gs :
  count_total id (fs ++ gs) = count_total id fs + count_total id gs
  /\ sent_total id (fs ++ gs) = (sent_total id fs + sent_total id gs)%nat.
Proof.
  unfold count_total, sent_total.
  induction fs as [|f fs [IHc IHs]]; cbn [app foldr]; split; lia.
Qed.

Lemma totals_calls id cs :
  count_total id (map Call cs) = 0 /\ sent_total id (map Call cs) = 0%nat.
Proof.
  unfold count_total, sent_total.
  induction cs as [|c cs [IHc IHs]];
    cbn [map foldr count_delta sent_delta]; split; lia.
Qed.

(** An evaluation that sends adds one to the count and one [sent] record. *)
Lemma effects_of_sent_totals e invoice configMap paymentLink options c :
  outcome_of e invoice configMap paymentLink options = Sent c ->
  count_total (inv_id invoice)
    (effects_of e invoice configMap paymentLink options) = 1
  /\ sent_total (inv_id invoice)
       (effects_of e invoice configMap paymentLink options) = 1%nat.
Proof.
  intros Hout. unfold effects_of. rewrite Hout.
  destruct (totals_app (inv_id invoice)
              (map Call (link_calls invoice paymentLink
                         ++ [OpenAIGenerate (request_of e invoice paymentLink);
                             GmailSend (mail_of e invoice paymentLink c)]))
              [InsertChase (sent_row e invoice (computeDaysOverdue e invoice) c);
               UpdateInvoice e (computeDaysOverdue e invoice) (inv_id invoice)])
    as [-> ->].
  destruct (totals_calls (inv_id invoice)
              (link_calls invoice paymentLink
               ++ [OpenAIGenerate (request_of e invoice paymentLink);
                   GmailSend (mail_of e invoice paymentLink c)]))
    as [-> ->].
  cbn. rewrite !Z.eqb_refl. split; reflexivity.
Qed.

Lemma interval_tier d H :
  getIntervalHoursForOverdueDays d = Some H ->
  exists n, d = JS.Int n /\ 5 <= n /\ (H = 24 \/ H = 48 \/ H = 72).
Proof.
  unfold getIntervalHoursForOverdueDays, JS.geb.
  destruct d as [|n]; [discriminate|].
  destruct (Z.leb_spec 10 n); [intros [= <-]; exists n; split; [reflexivity | lia]|].
  destruct (Z.leb_spec 7 n); [intros [= <-]; exists n; split; [reflexivity | lia]|].
  destruct (Z.leb_spec 5 n); [intros [= <-]; exists n; split; [reflexivity | lia]|].
  discriminate.
Qed.

(** Zero hours are fewer than any tier allows. *)
Lemma just_chased_not_elapsed now H :
  H = 24 \/ H = 48 \/ H = 72 -> interval_not_elapsed now now H = true.
Proof.
  unfold interval_not_elapsed, diffHours. rewrite Z.sub_diag.
  intros [-> | [-> | ->]]; vm_compute; reflexivity.
Qed.

(** C2, as the code has it. The result of an evaluation is decided by its
    snapshot alone, never by the rows stored when it commits, and its
    commit is an unconditional insert and an unconditional increment.
    So an evaluation that sent, run again from the same snapshot, sends
    again; and however the effects of two such evaluations are interleaved,
    they leave two more [sent] records and a count two higher. Only an
    evaluation that works on the row as the first one left it (same clock
    reading, interval not bypassed) is turned away, with the answer false
    and no change. *)
Theorem same_snapshot_sends_again :
  (forall e invoice configMap paymentLink options s,
      maybeSendChase e invoice configMap paymentLink options s
      = (result_of (outcome_of e invoice configMap paymentLink options),
         run_effects (effects_of e invoice configMap paymentLink options) s))
  /\ (forall e invoice configMap paymentLink options s s' count,
         maybeSendChase e invoice configMap paymentLink options s
         = (Returned true, s') ->
         stored_count (inv_id invoice) s = Some count ->
         let r := maybeSendChase e invoice configMap paymentLink options s' in
         fst r = Returned true
         /\ stored_count (inv_id invoice) (snd r) = Some (count + 2)
         /\ length (sent_records (inv_id invoice) (snd r))
            = (length (sent_records (inv_id invoice) s) + 2)%nat)
  /\ (forall e invoice configMap paymentLink options s count schedule,
         fst (maybeSendChase e invoice configMap paymentLink options s)
         = Returned true ->
         stored_count (inv_id invoice) s = Some count ->
         interleaved (effects_of e invoice configMap paymentLink options)
                     (effects_of e invoice configMap paymentLink options)
                     schedule ->
         stored_count (inv_id invoice) (run_effects schedule s)
         = Some (count + 2)
         /\ length (sent_records (inv_id invoice) (run_effects schedule s))
            = (length (sent_records (inv_id invoice) s) + 2)%nat)
  /\ (forall e invoice configMap paymentLink options s s'
             row paymentLink' options',
         maybeSendChase e invoice configMap paymentLink options s
         = (Returned true, s') ->
         In row (invoices s') ->
         inv_id row = inv_id invoice ->
         bypassInterval options' = false ->
         maybeSendChase e row configMap paymentLink' options' s'
         = (Returned false, s')).
Proof.
  split; [|split; [|split]].
  - intros. apply maybeSendChase_effects.
  - intros e invoice configMap paymentLink options s s' count Hrun Hcount.
    apply returned_true_committed in Hrun as (c & Hout & ->).
    cbv zeta. rewrite maybeSendChase_outcome, Hout. cbn [fst snd].
    split; [reflexivity|]. split.
    + erewrite stored_count_committed;
        [|rewrite stored_count_add_calls;
          erewrite stored_count_committed;
          [reflexivity | by rewrite stored_count_add_calls]].
      rewrite Z.eqb_refl. f_equal. lia.
    + rewrite !sent_records_committed, !sent_records_add_calls,
        sent_records_committed, sent_records_add_calls.
      rewrite !length_app. cbn [length]. lia.
  - intros e invoice configMap paymentLink options s count schedule
           Hrun Hcount Hsched.
    rewrite maybeSendChase_effects in Hrun. cbn [fst] in Hrun.
    destruct (outcome_of e invoice configMap paymentLink options)
      as [| |c|c] eqn:Hout; try discriminate.
    destruct (effects_of_sent_totals _ _ _ _ _ _ Hout) as [Hc Hs].
    destruct (interleaved_totals (inv_id invoice) _ _ _ Hsched) as [Hc2 Hs2].
    rewrite (run_effects_count _ schedule s count Hcount), run_effects_sent.
    rewrite Hc2, Hs2, Hc, Hs. split; [f_equal; lia | lia].
  - intros e invoice configMap paymentLink options s s' row paymentLink'
           options' Hrun Hin Hid Hby.
    apply returned_true_committed in Hrun as (c & Hout & ->).
    unfold outcome_of in Hout.
    destruct (eligible e invoice configMap options) eqn:Hel; [|discriminate].
    unfold eligible in Hel.
    destruct (getIntervalHoursForOverdueDays (computeDaysOverdue e invoice))
      as [H|] eqn:HH; [|discriminate].
    destruct (interval_tier _ _ HH) as (n & Hn & Hge & Htier).
    cbn [committed invoices add_calls] in Hin.
    unfold update_rows in Hin. apply in_map_iff in Hin as (r0 & Hrow & _).
    assert (row = chased_row e (computeDaysOverdue e invoice) r0) as ->.
    { destruct (inv_id r0 =? inv_id invoice) eqn:E; [by subst|].
      subst row. apply Z.eqb_neq in E. contradiction. }
    apply not_eligible_no_effect. unfold eligible.
    assert (computeDaysOverdue e
              (chased_row e (computeDaysOverdue e invoice) r0) = JS.Int n) as ->.
    { apply computeDaysOverdue_cached; [|lia].
      cbn [chased_row overdue_days]. by rewrite Hn. }
    rewrite <- Hn, HH.
    assert (interval_gate e (chased_row e (computeDaysOverdue e invoice) r0)
              options' H = true) as ->.
    { unfold interval_gate. rewrite Hby. cbn [chased_row last_chase_date negb andb].
      by apply just_chased_not_elapsed. }
    cbn [negb]. by rewrite andb_false_r.
Qed.

Lemma same_snapshot_sends_again_witness :
  let inv := an_invoice 1 Overdue (Some 12) None (Some 0) in
  let s1 := snd (maybeSendChase world0 inv ∅ None no_options (store [inv] [])) in
  let row := an_invoice 1 Overdue (Some 12) (Some (JS.DateAt now0)) (Some 1) in
  invoices s1 = [row]
  /\ maybeSendChase world0 row ∅ None no_options s1 = (Returned false, s1).
Proof.
  cbv zeta. split; [vm_compute; reflexivity|].
  apply (proj2 (proj2 (proj2 same_snapshot_sends_again)) world0
           (an_invoice 1 Overdue (Some 12) None (Some 0)) ∅ None no_options
           (store [an_invoice 1 Overdue (Some 12) None (Some 0)] []));
    [vm_compute; reflexivity | vm_compute; left; reflexivity
     | reflexivity | reflexivity].
Defined.

(** The claim as it was written fails. Two callers read invoice 1 from the
    same database and evaluate it; both evaluations send, and the second
    commit is accepted although the stored chase count and last chase date
    are no longer those of its snapshot. *)
Lemma same_snapshot_double_send :
  let inv := an_invoice 1 Overdue (Some 12) None (Some 0) in
  let s0 := store [inv] [] in
  let r1 := maybeSendChase world0 inv ∅ None no_options s0 in
  let r2 := maybeSendChase world0 inv ∅ None no_options (snd r1) in
  List.filter (fun r => inv_id r =? 1) (invoices s0) = [inv]
  /\ fst r1 = Returned true
  /\ map chase_count (invoices (snd r1)) = [Some 1]
  /\ map last_chase_date (invoices (snd r1)) = [Some (JS.DateAt now0)]
  /\ fst r2 = Returned true
  /\ map chase_count (invoices (snd r2)) = [Some 2]
  /\ map ce_status (sent_records 1 (snd r2)) = [EmailSent; EmailSent].
Proof. vm_compute. auto 8. Qed.

(** *** Worked examples *)

(** The tolerance of the interval gate is 36 seconds: at 8 days overdue a
    chase is blocked up to 47 h 59 min 23.999 s after the last one and
    allowed from 47 h 59 min 24 s on. *)
Example interval_tolerance :
  interval_not_elapsed now0 (now0 - (48 * hour - 36001)) 48 = true
  /\ interval_not_elapsed now0 (now0 - (48 * hour - 36000)) 48 = false.
Proof. vm_compute. auto. Qed.

(** A last chase date in the future counts by its distance to now. *)
Example interval_future_last :
  interval_not_elapsed now0 (now0 + 30 * hour) 48 = true.
Proof. vm_compute. reflexivity. Qed.

Example parseInt_samples :
  JS.parseInt "4" = JS.Int 4
  /\ JS.parseInt " 12 chases" = JS.Int 12
  /\ JS.parseInt "-3" = JS.Int (-3)
  /\ JS.parseInt "" = JS.NaN
  /\ JS.parseInt "unlimited" = JS.NaN.
Proof. vm_compute. auto 6. Qed.

Example parseDateOnly_samples :
  parseDateOnly world0 (Some "2024-01-01") = Some (JS.DateAt 1704067200000)
  /\ parseDateOnly world0 (Some "2024-03-01T10:00:00Z")
     = Some (JS.DateAt 1709251200000)
  /\ parseDateOnly world0 (Some "01/03/2024") = None
  /\ parseDateOnly world0 (Some "") = None
  /\ parseDateOnly world0 (Some "999999-01-01") = Some JS.InvalidDate.
Proof. vm_compute. auto 6. Qed.

(** Days overdue derived from the due date, and the case of an invalid
    date built by [Date.UTC]: the days are [NaN] and no tier applies. *)
Example computeDaysOverdue_samples :
  computeDaysOverdue world0 (an_invoice 1 Overdue None None None) = JS.Int 12
  /\ computeDaysOverdue world0 (an_invoice 1 Overdue (Some (-1)) None None)
     = JS.Int 12
  /\ computeDaysOverdue world0 (an_invoice 1 Overdue (Some 6) None None)
     = JS.Int 6.
Proof. vm_compute. auto. Qed.

(* ===================================================================== *)
(** ** Further properties of the code *)
(* ===================================================================== *)

(** *** The pause flag and the global switch *)

Lemma paused_not_eligible e invoice configMap options :
  is_paused (chase_paused invoice) = true ->
  bypassPaused options = false ->
  eligible e invoice configMap options = false.
Proof.
  intros Hp Hb. unfold eligible, paused_gate. rewrite Hp, Hb.
  destruct (getIntervalHoursForOverdueDays _); [|reflexivity].
  cbn [negb andb]. by rewrite andb_false_r.
Qed.

(** X1. An invoice whose pause flag is set (1 or true) is not chased by an
    evaluation that does not bypass the pause: [maybeSendChase] returns
    false and changes nothing, whatever the configuration and the interval. *)
Theorem paused_invoice_not_chased e invoice configMap paymentLink options s :
  is_paused (chase_paused invoice) = true ->
  bypassPaused options = false ->
  maybeSendChase e invoice configMap paymentLink options s = (Returned false, s).
Proof.
  intros Hp Hb. by apply not_eligible_no_effect, paused_not_eligible.
Qed.

Lemma paused_invoice_not_chased_witness :
  let inv := paused_row true (an_invoice 1 Overdue (Some 12) None (Some 0)) in
  maybeSendChase world0 inv ∅ None no_options (store [inv] [])
  = (Returned false, store [inv] []).
Proof.
  apply (paused_invoice_not_chased world0); reflexivity.
Defined.

Lemma eligible_bypass_paused e invoice configMap options paused :
  bypassPaused options = true ->
  eligible e (paused_row paused invoice) configMap options
  = eligible e invoice configMap options.
Proof.
  intros Hb. unfold eligible, paused_gate. rewrite Hb. reflexivity.
Qed.

(** X2. With [bypassPaused] the pause flag is not consulted: the evaluation
    of an invoice does not depend on the value its flag was set to. *)
Theorem bypass_paused_ignores_flag
    e invoice configMap paymentLink options s paused :
  bypassPaused options = true ->
  maybeSendChase e (paused_row paused invoice) configMap paymentLink options s
  = maybeSendChase e invoice configMap paymentLink options s.
Proof.
  intros Hb. rewrite !maybeSendChase_outcome. unfold outcome_of.
  rewrite (eligible_bypass_paused _ _ _ _ _ Hb). reflexivity.
Qed.

Lemma bypass_paused_ignores_flag_witness :
  let inv := an_invoice 1 Overdue (Some 12) None (Some 0) in
  fst (maybeSendChase world0 (paused_row true inv) ∅ None
         {| bypassPaused := true; bypassInterval := false |} (store [inv] []))
  = Returned true.
Proof.
  cbv zeta.
  rewrite (bypass_paused_ignores_flag world0
             (an_invoice 1 Overdue (Some 12) None (Some 0)) ∅ None
             {| bypassPaused := true; bypassInterval := false |}
             (store [an_invoice 1 Overdue (Some 12) None (Some 0)] []) true
             eq_refl).
  vm_compute. reflexivity.
Defined.

Lemma chaseEnabled_false_iff (configMap : gmap string (option string)) :
  chaseEnabled configMap = false
  <-> configMap !! "chase_enabled" = Some (Some "false").
Proof.
  unfold chaseEnabled, get_or.
  destruct (configMap !! "chase_enabled") as [[v|]|];
    [|split; discriminate|split; discriminate].
  destruct (String.eqb_spec v "") as [->|Hne]; [split; discriminate|].
  destruct (String.eqb_spec v "false") as [->|Hnf]; cbn [negb].
  - split; reflexivity.
  - split; [discriminate|]. intros [= ->]. contradiction.
Qed.

Lemma disabled_not_eligible e invoice configMap options :
  chaseEnabled configMap = false ->
  eligible e invoice configMap options = false.
Proof.
  intros Hd. unfold eligible. rewrite Hd.
  by destruct (getIntervalHoursForOverdueDays _).
Qed.

(** X3. Chasing is switched off by exactly one configuration, a
    [chase_enabled] entry whose value is the string [false] (a missing
    entry, a NULL or empty value and any other string leave it on); and
    when it is off no option gets a chase out: [maybeSendChase] returns
    false and changes nothing even with both bypasses set. *)
Theorem chasing_switch (configMap : gmap string (option string)) :
  (chaseEnabled configMap = false
   <-> configMap !! "chase_enabled" = Some (Some "false"))
  /\ (configMap !! "chase_enabled" = Some (Some "false") ->
      forall e invoice paymentLink options s,
        maybeSendChase e invoice configMap paymentLink options s
        = (Returned false, s)).
Proof.
  split; [apply chaseEnabled_false_iff|].
  intros Hoff e invoice paymentLink options s.
  apply not_eligible_no_effect, disabled_not_eligible.
  by apply chaseEnabled_false_iff.
Qed.

Lemma chasing_switch_witness :
  let inv := an_invoice 1 Overdue (Some 12) None (Some 0) in
  maybeSendChase world0 inv (<["chase_enabled" := Some "false"]> ∅) None
    {| bypassPaused := true; bypassInterval := true |} (store [inv] [])
  = (Returned false, store [inv] []).
Proof.
  apply (proj2 (chasing_switch (<["chase_enabled" := Some "false"]> ∅))).
  reflexivity.
Defined.

(** *** What one evaluation touches *)

Lemma deliveries_add_calls cs s :
  deliveries (add_calls cs s)
  = deliveries s
    ++ omap (fun c => match c with GmailSend m => Some m | _ => None end) cs.
Proof. unfold deliveries, add_calls. cbn [calls]. apply omap_app. Qed.

Lemma deliveries_link_calls invoice paymentLink :
  omap (fun c => match c with GmailSend m => Some m | _ => None end)
       (link_calls invoice paymentLink) = [].
Proof. unfold link_calls. by destruct (no_link paymentLink). Qed.

(** X4. What is recorded is what was handed to the delivery: an
    evaluation that returns true has made exactly one delivery and written
    exactly one chase record, of status sent, stamped now, for the invoice
    evaluated, with the delivered subject and body and the customer's
    address. *)
Theorem sent_record_matches_delivery
    e invoice configMap paymentLink options s s' :
  maybeSendChase e invoice configMap paymentLink options s = (Returned true, s') ->
  exists m row,
    deliveries s' = deliveries s ++ [m]
    /\ chase_emails s' = chase_emails s ++ [row]
    /\ ce_invoice_id row = inv_id invoice
    /\ ce_status row = EmailSent
    /\ ce_sent_at row = Some (now e)
    /\ ce_subject_line row = subject (mail_content m)
    /\ ce_generated_text row = body (mail_content m)
    /\ ce_sent_to row = mail_customer_email m
    /\ mail_customer_email m = customer_email invoice.
Proof.
  intros Hrun. apply returned_true_committed in Hrun as (c & _ & ->).
  exists (mail_of e invoice paymentLink c),
         (sent_row e invoice (computeDaysOverdue e invoice) c).
  split; [|repeat split].
  unfold deliveries. cbn [committed calls add_calls].
  rewrite !omap_app, deliveries_link_calls. reflexivity.
Qed.

Lemma sent_record_matches_delivery_witness :
  let inv := an_invoice 1 Overdue (Some 12) None (Some 0) in
  exists m row,
    deliveries (snd (maybeSendChase world0 inv ∅ None no_options (store [inv] [])))
    = [m]
    /\ chase_emails
         (snd (maybeSendChase world0 inv ∅ None no_options (store [inv] [])))
       = [row]
    /\ ce_sent_to row = "ada@example.com".
Proof.
  cbv zeta.
  destruct (sent_record_matches_delivery world0
              (an_invoice 1 Overdue (Some 12) None (Some 0)) ∅ None no_options
              (store [an_invoice 1 Overdue (Some 12) None (Some 0)] [])
              (snd (maybeSendChase world0
                      (an_invoice 1 Overdue (Some 12) None (Some 0)) ∅ None
                      no_options
                      (store [an_invoice 1 Overdue (Some 12) None (Some 0)] []))))
    as (m & row & Hd & Hc & _ & _ & _ & _ & _ & Hto & Hm);
    [vm_compute; reflexivity|].
  exists m, row. rewrite Hd, Hc, Hto, Hm. auto.
Defined.

(** X5. A failure of the payment-link lookup does not stop a chase: an
    eligible invoice evaluated without a link, for which Stripe throws, is
    still chased when the generator and the delivery answer; the generator
    is given the placeholder [{payment_link}] and the delivery no link. *)
Theorem stripe_failure_tolerated e invoice configMap options s c :
  eligible e invoice configMap options = true ->
  getPaymentLink e (stripe_invoice_id invoice) = None ->
  generateChaseEmail e
    (chase_request invoice (computeDaysOverdue e invoice) None) = Some c ->
  sendChaseEmail e (chase_mail invoice c None) = true ->
  fst (maybeSendChase e invoice configMap None options s) = Returned true
  /\ req_payment_link
       (chase_request invoice (computeDaysOverdue e invoice) None)
     = "{payment_link}"
  /\ calls (snd (maybeSendChase e invoice configMap None options s))
     = calls s
       ++ [StripeGetPaymentLink (stripe_invoice_id invoice);
           OpenAIGenerate
             (chase_request invoice (computeDaysOverdue e invoice) None);
           GmailSend (chase_mail invoice c None)].
Proof.
  intros Hel Hlink Hgen Hsend.
  rewrite maybeSendChase_outcome. unfold outcome_of, request_of, mail_of,
    fetched_link, link_calls. cbn [no_link].
  rewrite Hel, Hlink, Hgen, Hsend. repeat split.
Qed.

Lemma stripe_failure_tolerated_witness :
  let inv := another_invoice 2 Unpaid (Some 12) None (Some 0) in
  fst (maybeSendChase world_in_1_bounces inv ∅ None no_options (store [inv] []))
  = Returned true.
Proof.
  apply (stripe_failure_tolerated world_in_1_bounces
           (another_invoice 2 Unpaid (Some 12) None (Some 0)) ∅ no_options
           (store [another_invoice 2 Unpaid (Some 12) None (Some 0)] [])
           {| subject := "Payment reminder"; body := "Hello," |});
    vm_compute; reflexivity.
Defined.

Lemma run_evaluations_cons ev evs s :
  run_evaluations (ev :: evs) s = run_evaluations evs (snd (evaluate ev s)).
Proof. reflexivity. Qed.

Lemma kept_columns_update_rows e d id rows :
  map kept_columns (update_rows e d id rows) = map kept_columns rows.
Proof.
  unfold update_rows. rewrite map_map. apply map_ext.
  intros r. by destruct (inv_id r =? id).
Qed.

Lemma evaluate_keeps_rows ev s :
  map kept_columns (invoices (snd (evaluate ev s)))
  = map kept_columns (invoices s)
  /\ app_config (snd (evaluate ev s)) = app_config s.
Proof.
  unfold evaluate. rewrite maybeSendChase_outcome.
  destruct (outcome_of _ _ _ _ _); cbn [snd committed add_calls invoices app_config];
    rewrite ?kept_columns_update_rows; auto.
Qed.


Lemma lookup_map {A B : Type} (f : A -> B) (l : list A) (i : nat) :
  map f l !! i = f <$> l !! i.
Proof.
  revert i. induction l as [|x l IH]; intros [|i]; cbn; auto.
Qed.

Lemma evaluate_other_row (i : nat) (r : invoice)
    e invoice configMap paymentLink options s :
  invoices s !! i = Some r ->
  inv_id r <> inv_id invoice ->
  invoices (snd (maybeSendChase e invoice configMap paymentLink options s)) !! i
  = Some r.
Proof.
  intros Hr Hid. rewrite maybeSendChase_outcome.
  destruct (outcome_of _ _ _ _ _); cbn [snd committed add_calls invoices];
    auto.
  unfold update_rows. rewrite lookup_map, Hr. cbn.
  destruct (Z.eqb_spec (inv_id r) (inv_id invoice));
    [contradiction | reflexivity].
Qed.

(** X7. An evaluation leaves every invoice row with another id exactly as
    it was. *)
Theorem other_invoices_untouched ev s (i : nat) (r : invoice) :
  invoices s !! i = Some r ->
  inv_id r <> inv_id (ev_invoice ev) ->
  invoices (snd (evaluate ev s)) !! i = Some r.
Proof. intros Hr Hid. by apply evaluate_other_row. Qed.

Lemma other_invoices_untouched_witness :
  let inv1 := an_invoice 1 Overdue (Some 12) None (Some 0) in
  let inv2 := another_invoice 2 Unpaid (Some 12) None (Some 0) in
  invoices (snd (evaluate (batch_evaluation world0 ∅ inv1) (store [inv1; inv2] [])))
    !! 1%nat
  = Some inv2.
Proof.
  apply (other_invoices_untouched
           (batch_evaluation world0 ∅
              (an_invoice 1 Overdue (Some 12) None (Some 0)))
           (store [an_invoice 1 Overdue (Some 12) None (Some 0);
                   another_invoice 2 Unpaid (Some 12) None (Some 0)] [])
           1%nat);
    [reflexivity | vm_compute; discriminate].
Defined.

Lemma evaluate_log e invoice configMap paymentLink options s :
  exists added,
    chase_emails (snd (maybeSendChase e invoice configMap paymentLink options s))
    = chase_emails s ++ added
    /\ Forall (fun r => ce_status r = EmailSent
                        /\ ce_invoice_id r = inv_id invoice) added
    /\ length added
       = (if is_sent (fst (maybeSendChase e invoice configMap paymentLink
                             options s))
          then 1%nat else 0%nat).
Proof.
  rewrite maybeSendChase_outcome.
  destruct (outcome_of _ _ _ _ _) as [| |c|c];
    cbn [fst snd committed add_calls chase_emails is_sent];
    try (exists []; rewrite app_nil_r; repeat split; constructor).
  eexists. split; [reflexivity|]. split; [|reflexivity].
  constructor; [split; reflexivity | constructor].
Qed.

(** X8. The chase log is append-only under evaluations: after any
    sequence of them the table is the former table followed by new rows,
    every one of status sent. *)
Theorem chase_log_append_only evs s :
  exists added,
    chase_emails (run_evaluations evs s) = chase_emails s ++ added
    /\ Forall (fun r => ce_status r = EmailSent) added.
Proof.
  revert s. induction evs as [|ev evs IH]; intros s.
  - exists []. by rewrite app_nil_r.
  - rewrite run_evaluations_cons.
    destruct (IH (snd (evaluate ev s))) as (added2 & -> & Hall2).
    destruct (evaluate_log (ev_env ev) (ev_invoice ev) (ev_config ev)
                (ev_link ev) (ev_options ev) s) as (added1 & Hlog & Hall1 & _).
    unfold evaluate. rewrite Hlog. exists (added1 ++ added2).
    split; [by rewrite app_assoc|].
    apply Forall_app. split; [|exact Hall2].
    eapply Forall_impl; [exact Hall1|]. by intros r [? _].
Qed.

(** *** The batch report *)

Lemma batch_trace_log e configMap candidates s :
  length (chase_emails (snd (batch_trace e configMap candidates s)))
  = (length (chase_emails s)
     + length (List.filter is_sent (fst (batch_trace e configMap candidates s))))%nat.
Proof.
  revert s. induction candidates as [|invoice rest IH]; intros s;
    [cbn; lia|].
  cbn [batch_trace fst snd List.filter]. rewrite IH.
  destruct (evaluate_log e invoice configMap None no_options s)
    as (added & -> & _ & Hlen).
  rewrite length_app, Hlen.
  destruct (is_sent _); cbn [length]; lia.
Qed.

Lemma candidates_length e s :
  (length (selectCandidateInvoices e s) <= length (invoices s))%nat.
Proof.
  unfold selectCandidateInvoices. rewrite length_map.
  apply List.filter_length_le.
Qed.

(** X9. The report of a batch run is true to what it did: the number of
    chases it reports sent lies between 0 and the number of candidates,
    which is at most the number of invoices, and is exactly the number of
    rows the run added to the chase log. *)
Theorem batch_report_matches_log e s :
  exists b s',
    processOverdueChasing e s = (Returned b, s')
    /\ 0 <= sent b <= totalCandidates b
    /\ totalCandidates b <= Z.of_nat (length (invoices s))
    /\ Z.of_nat (length (chase_emails s'))
       = Z.of_nat (length (chase_emails s)) + sent b.
Proof.
  unfold processOverdueChasing. rewrite chase_loop_trace.
  eexists _, _. split; [reflexivity|]. cbn [sent totalCandidates].
  pose proof (List.filter_length_le is_sent
                (fst (batch_trace e (getAppConfigMap s)
                        (selectCandidateInvoices e s) s))) as Hle.
  rewrite batch_trace_length in Hle.
  pose proof (candidates_length e s).
  rewrite batch_trace_log. lia.
Qed.

(** *** Batch runs *)

Lemma selectCandidateInvoices_eq e s :
  selectCandidateInvoices e s
  = map as_candidate (List.filter (is_candidate e) (invoices s)).
Proof. reflexivity. Qed.

Lemma batch_trace_results e configMap candidates s :
  fst (batch_trace e configMap candidates s)
  = map (fun invoice =>
           result_of (outcome_of e invoice configMap None no_options))
        candidates.
Proof.
  revert s. induction candidates as [|invoice rest IH]; intros s;
    [reflexivity|].
  cbn [batch_trace fst map]. by rewrite IH, maybeSendChase_effects.
Qed.

Lemma batch_trace_sent_count e configMap candidates s :
  length (List.filter is_sent (fst (batch_trace e configMap candidates s)))
  = length (List.filter (batch_sends e configMap) candidates).
Proof.
  rewrite batch_trace_results.
  induction candidates as [|invoice rest IH]; [reflexivity|].
  cbn [map List.filter]. unfold batch_sends at 1.
  destruct (is_sent _); cbn [length]; by rewrite IH.
Qed.

(** A batch whose candidates all fail to send leaves both tables alone. *)
Lemma batch_trace_quiet e configMap candidates s :
  Forall (fun invoice => batch_sends e configMap invoice = false) candidates ->
  invoices (snd (batch_trace e configMap candidates s)) = invoices s
  /\ chase_emails (snd (batch_trace e configMap candidates s)) = chase_emails s.
Proof.
  revert s. induction candidates as [|invoice rest IH]; intros s Hall;
    [by split|].
  apply Forall_cons in Hall as [Hq Hall]. cbn [batch_trace snd].
  destruct (IH (snd (maybeSendChase e invoice configMap None no_options s)) Hall)
    as [-> ->].
  unfold batch_sends in Hq. rewrite maybeSendChase_outcome.
  destruct (outcome_of _ _ _ _ _); cbn in Hq |- *; auto; discriminate.
Qed.

Lemma just_chased_as_candidate_quiet e configMap r :
  just_chased e r -> batch_sends e configMap (as_candidate r) = false.
Proof.
  intros (Hlast & n & Hd & Hn). unfold batch_sends, outcome_of.
  assert (eligible e (as_candidate r) configMap no_options = false) as ->;
    [|reflexivity].
  unfold eligible.
  rewrite (computeDaysOverdue_cached e (as_candidate r) n Hd); [|lia].
  destruct (getIntervalHoursForOverdueDays (JS.Int n)) as [H|] eqn:HH;
    [|reflexivity].
  destruct (interval_tier _ _ HH) as (_ & _ & _ & Htier).
  assert (interval_gate e (as_candidate r) no_options H = true) as ->.
  { unfold interval_gate. cbn [as_candidate last_chase_date no_options
                               bypassInterval negb andb].
    rewrite Hlast. by apply just_chased_not_elapsed. }
  cbn [negb]. by rewrite andb_false_r.
Qed.

Lemma sent_candidate_days e configMap invoice :
  batch_sends e configMap invoice = true ->
  exists n, computeDaysOverdue e invoice = JS.Int n /\ 5 <= n.
Proof.
  unfold batch_sends, outcome_of.
  destruct (eligible e invoice configMap no_options) eqn:Hel; [|discriminate].
  intros _. unfold eligible in Hel.
  destruct (getIntervalHoursForOverdueDays (computeDaysOverdue e invoice))
    as [H|] eqn:HH; [|discriminate].
  destruct (interval_tier _ _ HH) as (n & Hn & Hge & _). eauto.
Qed.

(** Rows after a batch: chased at this instant, or untouched rows whose
    id no sending candidate carried. *)
Lemma batch_trace_rows e configMap rows0 candidates s done :
  (forall r, In r (invoices s) ->
             just_chased e r \/ (In r rows0 /\ ~ In (inv_id r) done)) ->
  forall r, In r (invoices (snd (batch_trace e configMap candidates s))) ->
            just_chased e r
            \/ (In r rows0
                /\ ~ In (inv_id r)
                     (done ++ map inv_id
                                (List.filter (batch_sends e configMap)
                                             candidates))).
Proof.
  revert s done. induction candidates as [|invoice rest IH]; intros s done Hinv.
  - cbn. intros r Hr. rewrite app_nil_r. by apply Hinv.
  - cbn [batch_trace snd List.filter].
    destruct (batch_sends e configMap invoice) eqn:Hs.
    + cbn [map]. intros r Hr.
      replace (done ++ inv_id invoice :: map inv_id (List.filter _ rest))
        with ((done ++ [inv_id invoice])
              ++ map inv_id (List.filter (batch_sends e configMap) rest))
        by (by rewrite <- app_assoc).
      revert r Hr. apply IH. intros r Hr.
      rewrite maybeSendChase_outcome in Hr.
      destruct (sent_candidate_days _ _ _ Hs) as (n & Hn & Hge).
      unfold batch_sends in Hs.
      destruct (outcome_of e invoice configMap None no_options) as [| |c|c];
        try discriminate.
      cbn [snd committed invoices add_calls] in Hr. unfold update_rows in Hr.
      apply in_map_iff in Hr as (r0 & <- & Hr0).
      destruct (Z.eqb_spec (inv_id r0) (inv_id invoice)) as [Heq|Hne].
      * left. split; [reflexivity|]. exists n.
        cbn [chased_row overdue_days]. rewrite Hn. auto.
      * destruct (Hinv r0 Hr0) as [Hj | [Hin Hnd]]; [by left|].
        right. split; [exact Hin|]. rewrite in_app_iff. cbn [In].
        intros [?|[?|[]]]; [auto | congruence].
    + apply IH. intros r Hr. apply Hinv.
      rewrite maybeSendChase_outcome in Hr. unfold batch_sends in Hs.
      destruct (outcome_of e invoice configMap None no_options);
        cbn in Hs, Hr; (discriminate || exact Hr).
Qed.

Lemma getAppConfigMap_batch_trace e configMap candidates s :
  app_config (snd (batch_trace e configMap candidates s)) = app_config s.
Proof.
  rewrite batch_trace_run_evaluations.
  match goal with |- context [run_evaluations ?l s] => generalize l end.
  intros evs.
  revert s. induction evs as [|ev evs IH]; intros s; [reflexivity|].
  rewrite run_evaluations_cons, IH. apply evaluate_keeps_rows.
Qed.

Lemma filter_none {A : Type} (f : A -> bool) (l : list A) :
  Forall (fun x => f x = false) l -> List.filter f l = [].
Proof.
  induction 1 as [|x l Hx _ IH]; [reflexivity|].
  cbn [List.filter]. by rewrite Hx.
Qed.

Lemma processOverdueChasing_eq e s :
  processOverdueChasing e s
  = (Returned
       {| sent :=
            Z.of_nat (length (List.filter (batch_sends e (getAppConfigMap s))
                                          (selectCandidateInvoices e s)));
          totalCandidates := Z.of_nat (length (selectCandidateInvoices e s)) |},
     snd (batch_trace e (getAppConfigMap s) (selectCandidateInvoices e s) s)).
Proof.
  unfold processOverdueChasing.
  by rewrite chase_loop_trace, batch_trace_sent_count.
Qed.

(** X10. A batch run repeated at the same instant, in the same world,
    sends nothing: every invoice the first run chased is now inside its
    interval, and every other candidate ends as it did the first time. The
    second run reports zero chases sent and leaves both tables as the first
    run left them. *)
Theorem second_batch_sends_nothing e s :
  exists b s2,
    processOverdueChasing e (snd (processOverdueChasing e s)) = (Returned b, s2)
    /\ sent b = 0
    /\ invoices s2 = invoices (snd (processOverdueChasing e s))
    /\ chase_emails s2 = chase_emails (snd (processOverdueChasing e s)).
Proof.
  rewrite (processOverdueChasing_eq e s). cbn [snd].
  set (s1 := snd (batch_trace e (getAppConfigMap s)
                    (selectCandidateInvoices e s) s)).
  assert (getAppConfigMap s1 = getAppConfigMap s) as Hcfg.
  { unfold getAppConfigMap, s1. by rewrite getAppConfigMap_batch_trace. }
  assert (Forall (fun invoice => batch_sends e (getAppConfigMap s) invoice = false)
                 (selectCandidateInvoices e s1)) as Hquiet.
  { apply List.Forall_forall. intros cand Hcand.
    rewrite selectCandidateInvoices_eq in Hcand.
    apply in_map_iff in Hcand as (r & <- & Hr).
    apply filter_In in Hr as [Hr Hp].
    destruct (batch_trace_rows e (getAppConfigMap s) (invoices s)
                (selectCandidateInvoices e s) s []
                (fun r0 Hr0 => or_intror (conj Hr0 (fun H : False => H)))
                r Hr)
      as [Hj | [Hin Hnot]].
    - by apply just_chased_as_candidate_quiet.
    - destruct (batch_sends e (getAppConfigMap s) (as_candidate r)) eqn:Hs;
        [|reflexivity].
      exfalso. apply Hnot. cbn [app].
      change (inv_id r) with (inv_id (as_candidate r)).
      apply in_map, filter_In. split; [|exact Hs].
      rewrite selectCandidateInvoices_eq. apply in_map, filter_In. by split. }
  rewrite (processOverdueChasing_eq e s1), Hcfg.
  eexists _, _. split; [reflexivity|]. cbn [sent].
  destruct (batch_trace_quiet e (getAppConfigMap s)
              (selectCandidateInvoices e s1) s1 Hquiet) as [Hi Hc].
  split; [|by split].
  by rewrite (filter_none _ _ Hquiet).
Qed.

Lemma batch_trace_count e configMap candidates s id c :
  stored_count id s = Some c ->
  stored_count id (snd (batch_trace e configMap candidates s))
  = Some (c + Z.of_nat
                (length (List.filter
                           (fun invoice => batch_sends e configMap invoice
                                           && (inv_id invoice =? id))
                           candidates))).
Proof.
  revert s c. induction candidates as [|invoice rest IH]; intros s c Hc.
  - cbn. rewrite Hc. f_equal. lia.
  - cbn [batch_trace snd List.filter].
    pose proof (evaluate_count (batch_evaluation e configMap invoice) s id c Hc)
      as Hstep.
    unfold evaluate in Hstep. cbn [batch_evaluation ev_env ev_invoice ev_config
                                   ev_link ev_options] in Hstep.
    rewrite (IH _ _ Hstep). unfold batch_sends at 2.
    rewrite maybeSendChase_effects. cbn [fst].
    clear Hstep.
    destruct (is_sent (result_of _) && _); cbn [length]; apply f_equal; lia.
Qed.

Lemma nodup_one_row (rows : list invoice) (id : Z) :
  NoDup (map inv_id rows) ->
  (length (List.filter (fun r => (inv_id r =? id)%Z) rows) <= 1)%nat.
Proof.
  induction rows as [|r rows IH]; [cbn; lia|].
  cbn [map List.filter]. intros Hnd.
  apply NoDup_cons in Hnd as [Hnotin Hnd]. rewrite list_elem_of_In in Hnotin.
  destruct (Z.eqb_spec (inv_id r) id) as [Heq|Hne]; [|by apply IH].
  assert (List.filter (fun r => inv_id r =? id) rows = []) as ->; [|cbn; lia].
  apply filter_none, List.Forall_forall. intros r' Hr'.
  apply Z.eqb_neq. intros Heq'. apply Hnotin.
  rewrite Heq, <- Heq'. by apply in_map.
Qed.

Lemma nodup_candidates e s :
  NoDup (map inv_id (invoices s)) ->
  NoDup (map inv_id (selectCandidateInvoices e s)).
Proof.
  rewrite selectCandidateInvoices_eq, map_map. cbn [as_candidate inv_id].
  induction (invoices s) as [|r rows IH]; [constructor|].
  cbn [map List.filter]. intros Hnd.
  apply NoDup_cons in Hnd as [Hnotin Hnd]. rewrite list_elem_of_In in Hnotin.
  destruct (is_candidate e r); [|by apply IH].
  cbn [map]. apply NoDup_cons. split; [|by apply IH].
  rewrite list_elem_of_In. intros Hin. apply Hnotin.
  apply in_map_iff in Hin as (r' & <- & Hr'). apply filter_In in Hr' as [Hr' _].
  by apply in_map.
Qed.

Lemma filter_and_length {A : Type} (f g : A -> bool) (l : list A) :
  (length (List.filter (fun x => f x && g x) l)
   <= length (List.filter g l))%nat.
Proof.
  induction l as [|x l IH]; [cbn; lia|].
  cbn [List.filter]. destruct (f x), (g x); simpl; lia.
Qed.

Lemma batch_trace_other_row e configMap candidates s (i : nat) (r : invoice) :
  (forall candidate, In candidate candidates -> inv_id candidate <> inv_id r) ->
  invoices s !! i = Some r ->
  invoices (snd (batch_trace e configMap candidates s)) !! i = Some r.
Proof.
  revert s. induction candidates as [|invoice rest IH]; intros s Hids Hr;
    [exact Hr|].
  cbn [batch_trace snd]. apply IH.
  - intros candidate Hin. apply Hids. by right.
  - apply evaluate_other_row; [exact Hr|].
    intros Heq. apply (Hids invoice); [by left | by symmetry].
Qed.

(** X11. When the ids of the invoices are distinct, a batch run chases
    each invoice at most once: no stored chase count rises by more than
    one over the run. *)
Theorem batch_chases_at_most_once e s id c :
  NoDup (map inv_id (invoices s)) ->
  stored_count id s = Some c ->
  exists c',
    stored_count id (snd (processOverdueChasing e s)) = Some c'
    /\ c <= c' <= c + 1.
Proof.
  intros Hnd Hc. rewrite processOverdueChasing_eq. cbn [snd].
  rewrite (batch_trace_count _ _ _ _ _ _ Hc).
  eexists. split; [reflexivity|].
  pose proof (nodup_one_row _ id (nodup_candidates e s Hnd)) as Hone.
  pose proof (filter_and_length (batch_sends e (getAppConfigMap s))
                (fun r => inv_id r =? id) (selectCandidateInvoices e s)) as Hle.
  cbn beta in Hle.
  set (a := length (List.filter _ (selectCandidateInvoices e s))) in Hle |- *.
  set (b := length (List.filter _ (selectCandidateInvoices e s))) in Hle, Hone.
  lia.
Qed.

Lemma batch_chases_at_most_once_witness :
  let s := store [an_invoice 1 Overdue (Some 12) None (Some 2);
                  another_invoice 2 Unpaid (Some 12) None (Some 0)] [] in
  exists c', stored_count 1 (snd (processOverdueChasing world0 s)) = Some c'
             /\ 2 <= c' <= 2 + 1.
Proof.
  apply (batch_chases_at_most_once world0
           (store [an_invoice 1 Overdue (Some 12) None (Some 2);
                   another_invoice 2 Unpaid (Some 12) None (Some 0)] []) 1 2);
    [|reflexivity].
  cbn. apply NoDup_cons. split; [|apply NoDup_singleton].
  rewrite list_elem_of_In. cbn. intros [H | []]. discriminate.
Defined.

(** X27. With distinct ids, a batch run leaves the row of every paid or
    cancelled invoice exactly as it was: such an invoice is not selected,
    and no chase of another invoice writes to it. *)
Theorem batch_leaves_terminal_invoices e s (i : nat) (r : invoice) :
  NoDup (map inv_id (invoices s)) ->
  invoices s !! i = Some r ->
  status r = Paid \/ status r = Cancelled ->
  invoices (snd (processOverdueChasing e s)) !! i = Some r.
Proof.
  intros Hnd Hr Hst. rewrite processOverdueChasing_eq. cbn [snd].
  apply batch_trace_other_row; [|exact Hr].
  intros candidate Hin Heq. rewrite selectCandidateInvoices_eq in Hin.
  apply in_map_iff in Hin as (r' & <- & Hr').
  apply filter_In in Hr' as [Hr' Hcand]. cbn [as_candidate inv_id] in Heq.
  apply list_elem_of_In, list_elem_of_lookup in Hr' as [j Hj].
  assert (i = j) as <-.
  { eapply NoDup_lookup; [exact Hnd | |].
    - rewrite lookup_map, Hr. reflexivity.
    - rewrite lookup_map, Hj. cbn. by rewrite Heq. }
  rewrite Hr in Hj. injection Hj as <-.
  unfold is_candidate in Hcand.
  destruct Hst as [Hst | Hst]; rewrite Hst in Hcand; discriminate.
Qed.

Lemma batch_leaves_terminal_invoices_witness :
  let paid := an_invoice 1 Paid (Some 12) None (Some 1) in
  let s := store [paid; another_invoice 2 Unpaid (Some 12) None (Some 0)] [] in
  invoices (snd (processOverdueChasing world0 s)) !! 0%nat = Some paid.
Proof.
  apply (batch_leaves_terminal_invoices world0
           (store [an_invoice 1 Paid (Some 12) None (Some 1);
                   another_invoice 2 Unpaid (Some 12) None (Some 0)] [])
           0%nat);
    [|reflexivity | by left].
  cbn. apply NoDup_cons. split; [|apply NoDup_singleton].
  rewrite list_elem_of_In. cbn. intros [H | []]. discriminate.
Defined.

Lemma candidates_after_pause e id paused s :
  selectCandidateInvoices e (snd (pause id paused s))
  = selectCandidateInvoices e s.
Proof.
  rewrite !selectCandidateInvoices_eq. cbn [pause snd invoices].
  induction (invoices s) as [|r rows IH]; [reflexivity|].
  cbn [map List.filter].
  assert (is_candidate e (if inv_id r =? id then paused_row paused r else r)
          = is_candidate e r) as ->
    by (by destruct (inv_id r =? id)).
  destruct (is_candidate e r); [|exact IH].
  cbn [map]. rewrite IH. f_equal. by destruct (inv_id r =? id).
Qed.

(** X12. The batch does not see the pause flag: the rows it selects do
    not carry chase_paused, so no candidate is ever held back by the pause
    gate, and pausing or resuming an invoice changes neither the candidates
    of the next batch run nor what that run reports. *)
Theorem batch_ignores_pause e s id paused :
  (forall candidate options,
      In candidate (selectCandidateInvoices e s) ->
      paused_gate candidate options = false)
  /\ selectCandidateInvoices e (snd (pause id paused s))
     = selectCandidateInvoices e s
  /\ fst (processOverdueChasing e (snd (pause id paused s)))
     = fst (processOverdueChasing e s).
Proof.
  split; [|split].
  - intros candidate options Hin. rewrite selectCandidateInvoices_eq in Hin.
    apply in_map_iff in Hin as (r & <- & _). unfold paused_gate.
    cbn [as_candidate chase_paused is_paused]. apply andb_false_r.
  - apply candidates_after_pause.
  - rewrite !processOverdueChasing_eq. cbn [fst].
    rewrite candidates_after_pause. reflexivity.
Qed.

Lemma chase_loop_none_eligible e configMap candidates n s :
  (forall invoice, eligible e invoice configMap no_options = false) ->
  chase_loop e configMap candidates n s = (n, s).
Proof.
  intros Hno. revert n s.
  induction candidates as [|invoice rest IH]; intros n s; [reflexivity|].
  cbn [chase_loop]. rewrite (not_eligible_no_effect _ _ _ _ _ _ (Hno invoice)).
  apply IH.
Qed.

Lemma expedite_row e id s invoice rest :
  List.filter (fun r => inv_id r =? id) (invoices s) = invoice :: rest ->
  expedite e id s
  = match maybeSendChase e invoice (getAppConfigMap s) None
            {| bypassPaused := true; bypassInterval := true |} s with
    | (Returned sent, s') => (Ok200 sent, s')
    | (Threw _, s') => (InternalError500, s')
    end.
Proof. intros Hrow. unfold expedite. by rewrite Hrow. Qed.

(** X13. With chasing switched off in the configuration table, a batch
    run sends nothing and leaves the whole state as it was, and an
    expedite request answers [sent: false] (or 404) and changes nothing. *)
Theorem switch_off_stops_batch_and_expedite e s :
  getAppConfigMap s !! "chase_enabled" = Some (Some "false") ->
  processOverdueChasing e s
  = (Returned {| sent := 0;
                 totalCandidates :=
                   Z.of_nat (length (selectCandidateInvoices e s)) |}, s)
  /\ forall id,
       expedite e id s = (NotFound404, s) \/ expedite e id s = (Ok200 false, s).
Proof.
  intros Hoff. apply chaseEnabled_false_iff in Hoff. split.
  - unfold processOverdueChasing.
    rewrite chase_loop_none_eligible; [reflexivity|].
    intros invoice. by apply disabled_not_eligible.
  - intros id.
    destruct (List.filter (fun r => inv_id r =? id) (invoices s))
      as [|invoice rest] eqn:Hrow.
    + left. unfold expedite. by rewrite Hrow.
    + right. rewrite (expedite_row _ _ _ _ _ Hrow).
      rewrite not_eligible_no_effect; [reflexivity|].
      by apply disabled_not_eligible.
Qed.

Lemma switch_off_stops_batch_and_expedite_witness :
  let s := store [an_invoice 1 Overdue (Some 12) None (Some 0)]
                 [("chase_enabled", Some "true"); ("chase_enabled", Some "false")] in
  processOverdueChasing world0 s
  = (Returned {| sent := 0; totalCandidates := 1 |}, s)
  /\ expedite world0 1 s = (Ok200 false, s).
Proof.
  cbv zeta.
  destruct (switch_off_stops_batch_and_expedite world0
              (store [an_invoice 1 Overdue (Some 12) None (Some 0)]
                     [("chase_enabled", Some "true");
                      ("chase_enabled", Some "false")]))
    as [Hbatch Hexp]; [reflexivity|].
  split; [exact Hbatch|].
  destruct (Hexp 1) as [H404 | Hok]; [|exact Hok].
  vm_compute in H404. discriminate.
Defined.

(** *** The expedite and pause handlers *)

Lemma eligible_expedite e invoice configMap H :
  getIntervalHoursForOverdueDays (computeDaysOverdue e invoice) = Some H ->
  chaseEnabled configMap = true ->
  cap_gate invoice configMap = false ->
  eligible e invoice configMap {| bypassPaused := true; bypassInterval := true |}
  = true.
Proof.
  intros HH Hen Hcap. unfold eligible, paused_gate, interval_gate.
  by rewrite HH, Hen, Hcap.
Qed.

Lemma stored_count_first id s invoice rest :
  List.filter (fun r => inv_id r =? id) (invoices s) = invoice :: rest ->
  stored_count id s = Some (default 0 (chase_count invoice))
  /\ inv_id invoice = id.
Proof.
  intros Hrow. unfold stored_count. rewrite Hrow. split; [reflexivity|].
  assert (In invoice (List.filter (fun r => inv_id r =? id) (invoices s))) as Hin
    by (rewrite Hrow; by left).
  apply filter_In in Hin as [_ Hin]. lia.
Qed.

(** X14. An expedite request gets a chase out whatever the pause flag and
    however recent the last chase: for an invoice at least five days
    overdue and under the cap, with chasing enabled and the services
    answering, the handler answers [sent: true] and the stored chase count
    is one higher. *)
Theorem expedite_bypasses_pause_and_interval e id s invoice rest H c :
  List.filter (fun r => inv_id r =? id) (invoices s) = invoice :: rest ->
  getIntervalHoursForOverdueDays (computeDaysOverdue e invoice) = Some H ->
  chaseEnabled (getAppConfigMap s) = true ->
  cap_gate invoice (getAppConfigMap s) = false ->
  generateChaseEmail e (request_of e invoice None) = Some c ->
  sendChaseEmail e (mail_of e invoice None c) = true ->
  fst (expedite e id s) = Ok200 true
  /\ stored_count id (snd (expedite e id s))
     = Some (default 0 (chase_count invoice) + 1).
Proof.
  intros Hrow HH Hen Hcap Hgen Hsend.
  destruct (stored_count_first _ _ _ _ Hrow) as [Hcount Hid].
  rewrite (expedite_row _ _ _ _ _ Hrow), maybeSendChase_outcome.
  unfold outcome_of.
  rewrite (eligible_expedite _ _ _ _ HH Hen Hcap), Hgen, Hsend. cbn [fst snd].
  split; [reflexivity|].
  erewrite stored_count_committed; [|by rewrite stored_count_add_calls].
  by rewrite Hid, Z.eqb_refl.
Qed.

Lemma expedite_bypasses_pause_and_interval_witness :
  let inv := paused_row true
               (an_invoice 1 Overdue (Some 12)
                  (Some (JS.DateAt (now0 - hour))) (Some 1)) in
  fst (expedite world0 1 (store [inv] [])) = Ok200 true
  /\ stored_count 1 (snd (expedite world0 1 (store [inv] []))) = Some (1 + 1).
Proof.
  apply (expedite_bypasses_pause_and_interval world0 1
           (store [paused_row true
                     (an_invoice 1 Overdue (Some 12)
                        (Some (JS.DateAt (now0 - hour))) (Some 1))] [])
           (paused_row true
              (an_invoice 1 Overdue (Some 12)
                 (Some (JS.DateAt (now0 - hour))) (Some 1)))
           [] 24 {| subject := "Payment reminder"; body := "Dear Ada," |});
    vm_compute; reflexivity.
Defined.

Lemma filter_no_row (rows : list invoice) (id : Z) :
  (forall r, In r rows -> inv_id r <> id) ->
  List.filter (fun r => inv_id r =? id) rows = [].
Proof.
  intros Hno. apply filter_none, List.Forall_forall.
  intros r Hr. apply Z.eqb_neq. by apply Hno.
Qed.

(** X15. The error answers of the expedite handler. A request for an id
    that no invoice has is answered 404 and touches nothing, no service is
    called. A request whose content generation or delivery fails is
    answered 500, and both tables are as they were: no record, no count. *)
Theorem expedite_errors e id s :
  ((forall r, In r (invoices s) -> inv_id r <> id) ->
   expedite e id s = (NotFound404, s))
  /\ (forall invoice rest,
         List.filter (fun r => inv_id r =? id) (invoices s) = invoice :: rest ->
         eligible e invoice (getAppConfigMap s)
           {| bypassPaused := true; bypassInterval := true |} = true ->
         (generateChaseEmail e (request_of e invoice None) = None
          \/ exists c,
              generateChaseEmail e (request_of e invoice None) = Some c
              /\ sendChaseEmail e (mail_of e invoice None c) = false) ->
         fst (expedite e id s) = InternalError500
         /\ invoices (snd (expedite e id s)) = invoices s
         /\ chase_emails (snd (expedite e id s)) = chase_emails s).
Proof.
  split.
  - intros Hno. unfold expedite. by rewrite (filter_no_row _ _ Hno).
  - intros invoice rest Hrow Hel Hfail.
    rewrite (expedite_row _ _ _ _ _ Hrow), maybeSendChase_outcome.
    unfold outcome_of. rewrite Hel.
    destruct Hfail as [-> | (c & -> & ->)]; auto.
Qed.

Lemma expedite_errors_witness :
  expedite world0 7 (store [an_invoice 1 Overdue (Some 12) None (Some 0)] [])
  = (NotFound404, store [an_invoice 1 Overdue (Some 12) None (Some 0)] [])
  /\ fst (expedite world_gmail_down 1
            (store [an_invoice 1 Overdue (Some 12) None (Some 0)] []))
     = InternalError500.
Proof.
  split.
  - apply (proj1 (expedite_errors world0 7 _)).
    intros r [<- | []]. vm_compute. discriminate.
  - apply (proj2 (expedite_errors world_gmail_down 1
                    (store [an_invoice 1 Overdue (Some 12) None (Some 0)] []))
             (an_invoice 1 Overdue (Some 12) None (Some 0)) []);
      [reflexivity | vm_compute; reflexivity |].
    right. eexists. split; vm_compute; reflexivity.
Defined.

(** X16. Pausing works on a caller that reads the flag: once an invoice is
    paused, any evaluation of a row of that id read from the table, made
    without [bypassPaused], returns false and changes nothing. *)
Theorem pause_blocks_evaluation
    e id s row configMap paymentLink options s2 :
  In row (invoices (snd (pause id true s))) ->
  inv_id row = id ->
  bypassPaused options = false ->
  maybeSendChase e row configMap paymentLink options s2 = (Returned false, s2).
Proof.
  intros Hin Hid Hb. apply not_eligible_no_effect, paused_not_eligible;
    [|exact Hb].
  cbn [pause snd invoices] in Hin. apply in_map_iff in Hin as (r0 & <- & _).
  destruct (Z.eqb_spec (inv_id r0) id) as [_|Hne]; [reflexivity|].
  destruct (inv_id r0 =? id) eqn:E in Hid; cbn in Hid; contradiction.
Qed.

Lemma pause_blocks_evaluation_witness :
  let inv := an_invoice 1 Overdue (Some 12) None (Some 0) in
  let s := snd (pause 1 true (store [inv] [])) in
  maybeSendChase world0 (paused_row true inv) ∅ None no_options s
  = (Returned false, s).
Proof.
  apply (pause_blocks_evaluation world0 1
           (store [an_invoice 1 Overdue (Some 12) None (Some 0)] []));
    [left; reflexivity | reflexivity | reflexivity].
Defined.


(** *** The configuration map, the policy and the clock arithmetic *)

Lemma fold_insert_lookup (rows : list (string * option string))
    (m : gmap string (option string)) (key : string) :
  fold_left (fun map row => <[fst row := snd row]> map) rows m !! key
  = match last (map snd (List.filter (fun row => String.eqb (fst row) key) rows)) with
    | Some v => Some v
    | None => m !! key
    end.
Proof.
  revert m. induction rows as [|[k v] rows IH]; intros m; [reflexivity|].
  cbn [fold_left List.filter fst snd]. rewrite IH.
  destruct (String.eqb_spec k key) as [->|Hne].
  - cbn [map].
    destruct (map snd (List.filter (fun row => String.eqb (fst row) key) rows))
      as [|v' vs] eqn:Hvs.
    + cbn. apply lookup_insert_eq.
    + rewrite last_cons_cons.
      destruct (last (v' :: vs)) eqn:E; [reflexivity|].
      by apply last_None in E.
  - destruct (last _); [reflexivity|]. by apply lookup_insert_ne.
Qed.

(** X18. In the configuration map a key stands for the value of the last
    row of app_config that has this key (NULL values included), and a key
    with no row is absent. *)
Theorem config_last_row_wins s key :
  getAppConfigMap s !! key
  = last (map snd (List.filter (fun row => String.eqb (fst row) key)
                               (app_config s))).
Proof.
  unfold getAppConfigMap. rewrite fold_insert_lookup.
  by destruct (last _).
Qed.

(** X19. The interval policy never lets an invoice out as it ages: if an
    invoice has an interval at some number of days overdue, it has one at
    any greater number, and no longer a one. There is no interval exactly
    below five days, and none for a number of days that is [NaN]. *)
Theorem interval_policy_tightens :
  (forall d1 d2 h1,
      d1 <= d2 ->
      getIntervalHoursForOverdueDays (JS.Int d1) = Some h1 ->
      exists h2,
        getIntervalHoursForOverdueDays (JS.Int d2) = Some h2 /\ h2 <= h1)
  /\ (forall d, getIntervalHoursForOverdueDays (JS.Int d) = None <-> d < 5)
  /\ getIntervalHoursForOverdueDays JS.NaN = None.
Proof.
  unfold getIntervalHoursForOverdueDays, JS.geb.
  split; [|split; [|reflexivity]].
  - intros d1 d2 h1 Hle.
    destruct (Z.leb_spec 10 d1), (Z.leb_spec 7 d1), (Z.leb_spec 5 d1),
             (Z.leb_spec 10 d2), (Z.leb_spec 7 d2), (Z.leb_spec 5 d2);
      intros [= <-]; try lia; eexists; (split; [reflexivity | lia]).
  - intros d.
    destruct (Z.leb_spec 10 d), (Z.leb_spec 7 d), (Z.leb_spec 5 d);
      split; intros; try discriminate; try lia; reflexivity.
Qed.

Lemma interval_policy_tightens_witness :
  exists h2, getIntervalHoursForOverdueDays (JS.Int 30) = Some h2 /\ h2 <= 72.
Proof.
  apply (proj1 interval_policy_tightens 5 30 72); [lia | reflexivity].
Defined.

(** X20. The days overdue the engine works with are never negative (they
    are a non-negative integer or [NaN]); and an invoice with neither a
    cached number of days nor a due date counts as zero days overdue. *)
Theorem days_overdue_never_negative e invoice :
  (forall d, computeDaysOverdue e invoice = JS.Int d -> 0 <= d)
  /\ (overdue_days invoice = None ->
      due_date invoice = None \/ due_date invoice = Some "" ->
      computeDaysOverdue e invoice = JS.Int 0).
Proof.
  unfold computeDaysOverdue. split.
  - intros d.
    assert (forall x, JS.max (JS.Int 0) x = JS.Int d -> 0 <= d) as Hmax.
    { intros [|x]; cbn; [discriminate|]. intros [= <-]. lia. }
    destruct (overdue_days invoice) as [n|];
      [destruct (Z.leb_spec 0 n); [intros [= <-]; lia|]|];
      (destruct (parseDateOnly e (due_date invoice)) as [due|];
         [apply Hmax | intros [= <-]; lia]).
  - intros -> [-> | ->]; reflexivity.
Qed.

Lemma days_overdue_never_negative_witness :
  0 <= 12
  /\ computeDaysOverdue world0
       {| inv_id := 3; stripe_invoice_id := "in_3";
          customer_email := "eve@example.com"; customer_name := None;
          amount := "10.00"; due_date := None; status := Unpaid;
          overdue_days := None; last_chase_date := None;
          chase_count := None; chase_paused := FlagAbsent |}
     = JS.Int 0.
Proof.
  split.
  - apply (proj1 (days_overdue_never_negative world0
                    (an_invoice 1 Overdue None None None)) 12).
    vm_compute. reflexivity.
  - apply (proj2 (days_overdue_never_negative world0 _));
      [reflexivity | by left].
Defined.

Lemma diffHours_sym a b : diffHours a b = diffHours b a.
Proof.
  unfold diffHours. replace (b - a) with (- (a - b)) by lia.
  by rewrite Z.abs_opp.
Qed.

(** X21. The interval test measures the distance between now and the last
    chase date, not its direction: a last chase date in the future holds
    the next chase back exactly as one equally far in the past does. *)
Theorem interval_test_symmetric now k H :
  interval_not_elapsed now (now + k) H = interval_not_elapsed now (now - k) H.
Proof.
  unfold interval_not_elapsed, diffHours.
  replace (now - (now + k)) with (- k) by lia.
  replace (now - (now - k)) with k by lia.
  by rewrite Z.abs_opp.
Qed.

(** *** The next-chase display *)

(** X22. [computeNextChaseInfo] throws in exactly one situation: an
    interval applies to the displayed days overdue and the last chase date
    is an invalid date, or so late that adding the interval leaves the
    range of dates. The error is then a RangeError. When it returns, the
    days until the next chase are never negative. *)
Theorem next_chase_info_error e invoice :
  (computeNextChaseInfo e invoice = Threw RangeError
   <-> exists H,
        hoursInterval (shown_daysOverdue invoice) = Some H
        /\ (last_chase_date invoice = Some JS.InvalidDate
            \/ exists t,
                last_chase_date invoice = Some (JS.DateAt t)
                /\ 8640000000000000 < Z.abs (t + H * 60 * 60 * 1000)))
  /\ (forall err, computeNextChaseInfo e invoice = Threw err -> err = RangeError)
  /\ (forall info n,
         computeNextChaseInfo e invoice = Returned info ->
         days_until_next_chase info = Some (JS.Int n) -> 0 <= n).
Proof.
  unfold computeNextChaseInfo.
  destruct (hoursInterval (shown_daysOverdue invoice)) as [H|].
  2: { split; [|split]; [split|..]; try discriminate.
       - intros (H & [=] & _).
       - intros info n [= <-]. discriminate. }
  destruct (last_chase_date invoice) as [[|t]|].
  - split; [|split]; [split|..]; try discriminate.
    + intros _. exists H. split; [reflexivity|]. by left.
    + reflexivity.
    + by intros err [= <-].
  - unfold JS.TimeClip.
    destruct (Z.leb_spec (Z.abs (t + H * 60 * 60 * 1000)) 8640000000000000)
      as [Hin|Hout].
    + split; [|split]; [split|..]; try discriminate.
      * intros (H' & [= <-] & [[=] | (t' & [= <-] & Hbig)]). lia.
      * intros info n [= <-]. cbn [days_until_next_chase].
        destruct (JS.ceil _) as [|z]; cbn; [discriminate|].
        intros [= <-]. lia.
    + split; [|split]; [split|..]; try discriminate.
      * intros _. exists H. split; [reflexivity|]. right. exists t. by split.
      * reflexivity.
      * by intros err [= <-].
  - split; [|split]; [split|..]; try discriminate.
    + intros (H' & [= <-] & [[=] | (t' & [=] & _)]).
    + intros info n [= <-]. cbn [days_until_next_chase].
      destruct (JS.ceil _) as [|z]; cbn; [discriminate|].
      intros [= <-]. lia.
Qed.



(** *** Payment notices *)

Lemma filter_status_rows (st : invoice_status) sid id (rows : list invoice) :
  List.filter (fun r => inv_id r =? id)
    (map (fun r => if String.eqb (stripe_invoice_id r) sid
                   then status_row st r else r) rows)
  = map (fun r => if String.eqb (stripe_invoice_id r) sid
                  then status_row st r else r)
        (List.filter (fun r => inv_id r =? id) rows).
Proof.
  induction rows as [|r rows IH]; [reflexivity|].
  cbn [map List.filter].
  assert (inv_id (if String.eqb (stripe_invoice_id r) sid
                  then status_row st r else r) = inv_id r) as ->
    by (by destruct (String.eqb _ _)).
  destruct (inv_id r =? id); cbn [map]; by rewrite IH.
Qed.

Lemma sent_records_cancel_pending sid id s :
  sent_records id (cancel_pending sid s) = sent_records id s.
Proof.
  unfold sent_records, cancel_pending. cbn [chase_emails].
  destruct (invoice_id_of sid s) as [i|]; [|reflexivity].
  induction (chase_emails s) as [|r rows IH]; [reflexivity|].
  cbn [map List.filter]. rewrite IH.
  destruct (ce_invoice_id r =? i), (ce_status r) eqn:Hst;
    cbn [andb cancelled_email ce_invoice_id ce_status]; rewrite ?Hst;
    try reflexivity.
  by rewrite andb_false_r.
Qed.

(** X24. After the payment notice of an invoice ([handlePaymentSucceeded]):
    every row with that Stripe id is paid, so the batch no longer selects
    it; no chase count has changed; the records of chases sent are as they
    were; and none of the invoice's records is left pending. *)
Theorem payment_ends_batch_chasing e sid s :
  (forall r, In r (invoices (handlePaymentSucceeded sid s)) ->
             stripe_invoice_id r = sid -> status r = Paid)
  /\ (forall candidate,
         In candidate (selectCandidateInvoices e (handlePaymentSucceeded sid s)) ->
         stripe_invoice_id candidate <> sid)
  /\ (forall id, stored_count id (handlePaymentSucceeded sid s)
                 = stored_count id s)
  /\ (forall id, sent_records id (handlePaymentSucceeded sid s)
                 = sent_records id s)
  /\ (forall id r,
         invoice_id_of sid s = Some id ->
         In r (chase_emails (handlePaymentSucceeded sid s)) ->
         ce_invoice_id r = id ->
         ce_status r <> EmailPending).
Proof.
  assert (forall r, In r (invoices (handlePaymentSucceeded sid s)) ->
                    stripe_invoice_id r = sid -> status r = Paid) as Hpaid.
  { intros r Hin Hsid. cbn in Hin. apply in_map_iff in Hin as (r0 & <- & _).
    destruct (String.eqb_spec (stripe_invoice_id r0) sid) as [|Hne];
      [reflexivity|].
    destruct (String.eqb (stripe_invoice_id r0) sid) eqn:E in Hsid;
      cbn in Hsid; contradiction. }
  split; [exact Hpaid|]. split; [|split; [|split]].
  - intros candidate Hin Hsid. rewrite selectCandidateInvoices_eq in Hin.
    apply in_map_iff in Hin as (r & <- & Hr).
    apply filter_In in Hr as [Hr Hcand].
    unfold is_candidate in Hcand. by rewrite (Hpaid r Hr Hsid) in Hcand.
  - intros id. unfold stored_count, handlePaymentSucceeded.
    cbn [cancel_pending updateInvoiceStatus invoices].
    rewrite filter_status_rows.
    destruct (List.filter _ (invoices s)) as [|r rest]; [reflexivity|].
    cbn [map]. by destruct (String.eqb _ _).
  - intros id. unfold handlePaymentSucceeded.
    by rewrite sent_records_cancel_pending.
  - intros id r Hid Hin Hr. unfold handlePaymentSucceeded in Hin.
    assert (invoice_id_of sid (updateInvoiceStatus sid Paid s) = Some id) as Hid'.
    { unfold invoice_id_of in *. cbn [updateInvoiceStatus invoices].
      revert Hid. induction (invoices s) as [|r0 rows IH]; [discriminate|].
      cbn [map List.filter].
      assert (stripe_invoice_id
                (if String.eqb (stripe_invoice_id r0) sid
                 then status_row Paid r0 else r0) = stripe_invoice_id r0) as ->
        by (by destruct (String.eqb _ _)).
      destruct (String.eqb (stripe_invoice_id r0) sid); [|exact IH].
      by intros [= <-]. }
    unfold cancel_pending in Hin. cbn [chase_emails] in Hin.
    rewrite Hid' in Hin. apply in_map_iff in Hin as (r0 & <- & _).
    destruct (ce_invoice_id r0 =? id) eqn:E, (ce_status r0) eqn:Hst;
      cbn [andb cancelled_email ce_status ce_invoice_id] in *;
      rewrite ?Hst; try discriminate; lia.
Qed.

(** *** Where a chase is delivered and how it sounds *)

Lemma adminFallback_not_empty p : adminFallback p <> "".
Proof.
  unfold adminFallback, env_or.
  destruct (TEST_EMAIL_RECIPIENT p) as [x|]; [|discriminate].
  destruct (String.eqb_spec x ""); [discriminate | assumption].
Qed.

(** X25. A chase goes to the customer only in two configurations: when
    EMAIL_TEST_MODE is the string [false], or when it is unset (or empty)
    and NODE_ENV is [production]. In every other configuration it goes to
    the test recipient (TEST_EMAIL_RECIPIENT, or the built-in address),
    which is never empty. *)
Theorem chase_recipient_routing p m :
  (emailTestMode p = false
   <-> EMAIL_TEST_MODE p = Some "false"
       \/ ((EMAIL_TEST_MODE p = None \/ EMAIL_TEST_MODE p = Some "")
           /\ NODE_ENV p = Some "production"))
  /\ (emailTestMode p = false -> recipientEmail p m = mail_customer_email m)
  /\ (emailTestMode p = true ->
      recipientEmail p m = adminFallback p /\ adminFallback p <> "").
Proof.
  split; [|split].
  - unfold emailTestMode, env_or, isProd.
    destruct (EMAIL_TEST_MODE p) as [x|].
    + destruct (String.eqb_spec x "") as [->|Hne].
      * destruct (NODE_ENV p) as [y|]; cbn.
        -- destruct (String.eqb_spec y "production") as [->|Hnp]; cbn.
           ++ split; [intros _; right; auto | reflexivity].
           ++ split; [discriminate|].
              intros [[=] | (_ & [= ->])]. contradiction.
        -- split; [discriminate|]. intros [[=] | (_ & [=])].
      * destruct (String.eqb_spec x "false") as [->|Hnf]; cbn.
        -- split; [intros _; by left | reflexivity].
        -- split; [discriminate|].
           intros [[= ->] | ([[=] | [= ->]] & _)]; contradiction.
    + destruct (NODE_ENV p) as [y|]; cbn.
      * destruct (String.eqb_spec y "production") as [->|Hnp]; cbn.
        -- split; [intros _; right; auto | reflexivity].
        -- split; [discriminate|].
           intros [[=] | (_ & [= ->])]. contradiction.
      * split; [discriminate|]. intros [[=] | (_ & [=])].
  - intros Hoff. unfold recipientEmail. by rewrite Hoff.
  - intros Hon. split; [|apply adminFallback_not_empty].
    unfold recipientEmail. rewrite Hon.
    pose proof (adminFallback_not_empty p) as Hne.
    by destruct (String.eqb_spec (adminFallback p) "").
Qed.

Lemma chase_recipient_routing_witness :
  let m := mail_of world0 (an_invoice 1 Overdue (Some 12) None (Some 0)) None
             {| subject := "Payment reminder"; body := "Dear Ada," |} in
  recipientEmail {| NODE_ENV := Some "production"; EMAIL_TEST_MODE := None;
                    TEST_EMAIL_RECIPIENT := None |} m = "ada@example.com"
  /\ recipientEmail {| NODE_ENV := Some "production";
                       EMAIL_TEST_MODE := Some "1";
                       TEST_EMAIL_RECIPIENT := None |} m = "david@rawlings.us".
Proof.
  cbv zeta. split.
  - exact (proj1 (proj2 (chase_recipient_routing
                           {| NODE_ENV := Some "production";
                              EMAIL_TEST_MODE := None;
                              TEST_EMAIL_RECIPIENT := None |}
                           (mail_of world0
                              (an_invoice 1 Overdue (Some 12) None (Some 0)) None
                              {| subject := "Payment reminder";
                                 body := "Dear Ada," |})))
                  eq_refl).
  - exact (proj1 (proj2 (proj2 (chase_recipient_routing
                           {| NODE_ENV := Some "production";
                              EMAIL_TEST_MODE := Some "1";
                              TEST_EMAIL_RECIPIENT := None |}
                           (mail_of world0
                              (an_invoice 1 Overdue (Some 12) None (Some 0)) None
                              {| subject := "Payment reminder";
                                 body := "Dear Ada," |})))
                         eq_refl)).
Defined.

(** X26. The engine never sends the two mild tones: the request it makes
    of the content generator for an eligible invoice is written in the tone
    [firm but courteous] up to seven days overdue and [firm and concise,
    still courteous] beyond. *)
Theorem engine_tone_is_firm e invoice configMap paymentLink options :
  eligible e invoice configMap options = true ->
  exists n,
    computeDaysOverdue e invoice = JS.Int n
    /\ 5 <= n
    /\ promptTone (request_of e invoice paymentLink)
       = if n <=? 7 then "firm but courteous"
         else "firm and concise, still courteous".
Proof.
  intros Hel. unfold eligible in Hel.
  destruct (getIntervalHoursForOverdueDays (computeDaysOverdue e invoice))
    as [H|] eqn:HH; [|discriminate].
  destruct (interval_tier _ _ HH) as (n & Hn & Hge & _).
  exists n. split; [exact Hn|]. split; [exact Hge|].
  unfold promptTone, request_of, chase_request. cbn [req_overdue_days].
  rewrite Hn. unfold or_zero, selectTone, leb.
  destruct (Z.leb_spec n 1); [lia|].
  destruct (Z.leb_spec n 3); [lia|]. reflexivity.
Qed.

Lemma engine_tone_is_firm_witness :
  promptTone (request_of world0 (an_invoice 1 Overdue (Some 6) None (Some 0)) None)
  = "firm but courteous".
Proof.
  destruct (engine_tone_is_firm world0
              (an_invoice 1 Overdue (Some 6) None (Some 0)) ∅ None no_options)
    as (n & Hn & _ & ->); [vm_compute; reflexivity|].
  vm_compute in Hn. injection Hn as <-. reflexivity.
Defined.

(** *** Reading a due date *)

Ltac digit_cases k :=
  let H := fresh in
  assert (k = 0 \/ k = 1 \/ k = 2 \/ k = 3 \/ k = 4 \/ k = 5 \/ k = 6 \/ k = 7
          \/ k = 8 \/ k = 9) as H by lia;
  destruct H as [->|[->|[->|[->|[->|[->|[->|[->|[->| ->]]]]]]]]].

Lemma parseInt_digit k rest :
  0 <= k <= 9 ->
  JS.parseInt (String (digit_char k) rest)
  = match JS.digits rest (Some k) with
    | Some n => JS.Int n
    | None => JS.NaN
    end.
Proof. intros Hk. digit_cases k; reflexivity. Qed.

Lemma digits_digit k rest acc :
  0 <= k <= 9 ->
  JS.digits (String (digit_char k) rest) acc
  = JS.digits rest (Some (10 * default 0 acc + k)).
Proof. intros Hk. digit_cases k; reflexivity. Qed.

Lemma split_digit k rest cur :
  0 <= k <= 9 ->
  JS.split_aux "-" (String (digit_char k) rest) cur
  = JS.split_aux "-" rest (cur ++ String (digit_char k) "")%string.
Proof. intros Hk. digit_cases k; reflexivity. Qed.

Lemma split_dash rest cur :
  JS.split_aux "-" (String "-" rest) cur = cur :: JS.split_aux "-" rest "".
Proof. reflexivity. Qed.

Lemma split_end cur : JS.split_aux "-" "" cur = [cur].
Proof. reflexivity. Qed.

Lemma parseDateOnly_digits e a b c d m1 m0 d1 d0 :
  0 <= a <= 9 -> 0 <= b <= 9 -> 0 <= c <= 9 -> 0 <= d <= 9 ->
  0 <= m1 <= 9 -> 0 <= m0 <= 9 -> 0 <= d1 <= 9 -> 0 <= d0 <= 9 ->
  parseDateOnly e
    (Some (String (digit_char a)
             (String (digit_char b)
                (String (digit_char c)
                   (String (digit_char d)
                      (String "-"
                         (String (digit_char m1)
                            (String (digit_char m0)
                               (String "-"
                                  (String (digit_char d1)
                                     (String (digit_char d0) "")))))))))))
  = Some (JS.Date_UTC (10 * (10 * (10 * a + b) + c) + d)
                      (10 * m1 + m0 - 1) (10 * d1 + d0)).
Proof.
  intros Ha Hb Hc Hd Hm1 Hm0 Hd1 Hd0.
  unfold parseDateOnly.
  change (String.eqb (String (digit_char a) ?r) "") with false.
  cbn iota. unfold JS.split.
  repeat first [rewrite split_digit by assumption | rewrite split_dash].
  rewrite split_end. cbn [map nth].
  cbv beta iota fix delta [String.append].
  rewrite !parseInt_digit, !digits_digit by assumption.
  cbn [JS.digits]. unfold default. cbn [from_option id].
  reflexivity.
Qed.


(** X28. A due date written as [YYYY-MM-DD] (four, two and two decimal
    digits) is read by [parseDateOnly] through its own split-and-parse
    path as midnight UTC of that calendar day, [Date.UTC(y, m - 1, d)]:
    the result does not depend on what the engine's [Date] parser would
    make of the string, and the month is shifted to JavaScript's
    zero-based months. *)
Theorem iso_due_date_read_as_utc e y m d :
  0 <= y <= 9999 -> 0 <= m <= 99 -> 0 <= d <= 99 ->
  parseDateOnly e (Some (iso_date y m d)) = Some (JS.Date_UTC y (m - 1) d).
Proof.
  intros Hy Hm Hd. unfold iso_date.
  rewrite parseDateOnly_digits
    by (Z.to_euclidean_division_equations; lia).
  assert (Ey : 10 * (10 * (10 * (y / 1000) + y / 100 mod 10) + y / 10 mod 10)
               + y mod 10 = y).
  { pose proof (Z.div_mod y 10 ltac:(lia)) as E1.
    pose proof (Z.div_mod (y / 10) 10 ltac:(lia)) as E2.
    pose proof (Z.div_mod (y / 100) 10 ltac:(lia)) as E3.
    rewrite Z.div_div in E2 by lia. change (10 * 10) with 100 in E2.
    rewrite Z.div_div in E3 by lia. change (100 * 10) with 1000 in E3.
    lia. }
  assert (Em : 10 * (m / 10) + m mod 10 = m)
    by (symmetry; apply Z.div_mod; lia).
  assert (Ed : 10 * (d / 10) + d mod 10 = d)
    by (symmetry; apply Z.div_mod; lia).
  rewrite Ey, Em, Ed. reflexivity.
Qed.

Lemma iso_due_date_read_as_utc_witness :
  parseDateOnly world0 (Some "2024-01-05"%string)
  = Some (JS.DateAt 1704412800000).
Proof.
  exact (iso_due_date_read_as_utc world0 2024 1 5
           ltac:(lia) ltac:(lia) ltac:(lia)).
Defined.

(** *** A failed payment *)

(** X29. A payment-failed notice ([handlePaymentFailed]) sets the invoice
    with that Stripe id to [unpaid] whatever its status was, paid and
    cancelled included, and keeps its chase count and last chase date: if
    its due date has passed, the invoice is among the candidates of the
    next batch. Rows with another Stripe id are left as they were. *)
Theorem payment_failed_reopens e sid s r :
  In r (invoices s) ->
  stripe_invoice_id r = sid ->
  due_before_today e (due_date r) = true ->
  (exists c, In c (selectCandidateInvoices e (handlePaymentFailed sid s))
             /\ inv_id c = inv_id r
             /\ status c = Unpaid
             /\ chase_count c = chase_count r
             /\ last_chase_date c = last_chase_date r)
  /\ (forall r', In r' (invoices s) -> stripe_invoice_id r' <> sid ->
                 In r' (invoices (handlePaymentFailed sid s))).
Proof.
  intros Hin Hsid Hdue. split.
  - exists (as_candidate (status_row Unpaid r)).
    split; [|repeat split].
    rewrite selectCandidateInvoices_eq. apply in_map.
    apply filter_In. split.
    + unfold handlePaymentFailed, updateInvoiceStatus. cbn [invoices].
      apply in_map_iff. exists r. split; [|exact Hin].
      rewrite Hsid, String.eqb_refl. reflexivity.
    + unfold is_candidate. cbn [status_row status due_date]. exact Hdue.
  - intros r' Hin' Hne.
    unfold handlePaymentFailed, updateInvoiceStatus. cbn [invoices].
    apply in_map_iff. exists r'. split; [|exact Hin'].
    apply String.eqb_neq in Hne. rewrite Hne. reflexivity.
Qed.

Lemma payment_failed_reopens_witness :
  exists c,
    In c (selectCandidateInvoices world0
            (handlePaymentFailed "in_1"
               (store [an_invoice 1 Paid (Some 6) None (Some 2)] [])))
    /\ status c = Unpaid /\ chase_count c = Some 2.
Proof.
  destruct (payment_failed_reopens world0 "in_1"
              (store [an_invoice 1 Paid (Some 6) None (Some 2)] [])
              (an_invoice 1 Paid (Some 6) None (Some 2)))
    as [(c & Hc & _ & Hst & Hcount & _) _];
    [left; reflexivity | reflexivity | reflexivity |].
  exists c. split; [exact Hc|]. split; [exact Hst | exact Hcount].
Defined.
